(** * lttng-ust: the futex dispatch header and the error-pointer helpers

    A shallow embedding of
      - the sys_futex / compat_futex dispatch header (the four platform
        branches of [lttng_ust_futex_noasync] and [lttng_ust_futex_async]),
      - the ERROR OPS block of [share/kernelcompat.h]
        ([ERR_PTR], [PTR_ERR], [IS_ERR]).

    The dispatch functions are tiny, but every one of them talks to code
    that lives outside the header: the [futex] system call, FreeBSD's
    [_umtx_op], the two [lttng_ust_compat_futex_*] functions and the
    thread-local [errno].  They are embedded in a small state monad whose
    state is the part of the world those externals can change, and whose
    result records every external call together with the arguments it
    received. *)

From Stdlib Require Import ZArith List Bool Lia.
Import ListNotations.

Local Open Scope Z_scope.

(** ** C integer conversions *)

(** Conversion to a signed integer type of [bits] bits (two's complement). *)
Definition wrap_signed (bits z : Z) : Z :=
  (z + 2 ^ (bits - 1)) mod 2 ^ bits - 2 ^ (bits - 1).

(** Conversion to an unsigned integer type of [bits] bits. *)
Definition wrap_unsigned (bits z : Z) : Z := z mod 2 ^ bits.

(** [(int) x] for an [x] of a wider type, as in the implicit conversion of
    [syscall]'s [long] to the [int] that [lttng_ust_futex] returns. *)
Definition to_int (z : Z) : Z := wrap_signed 32 z.

(** [(uint32_t) x]. *)
Definition to_uint32 (z : Z) : Z := wrap_unsigned 32 z.

(** ** Constants *)

Definition FUTEX_WAIT : Z := 0.
Definition FUTEX_WAKE : Z := 1.

(** [errno] values, <errno.h>.  The numbers are those of Linux on x86 and
    ARM ([ENOSYS] has other numbers on some ports); the general statements
    below use the names only. *)
Definition EINVAL : Z := 22.
Definition ENOSYS : Z := 38.
Definition EINTR : Z := 4.

(** FreeBSD <sys/umtx.h> and <time.h>. *)
Definition UMTX_OP_WAKE : Z := 3.
Definition UMTX_OP_WAIT_UINT : Z := 11.
Definition UMTX_ABSTIME : Z := 1.
Definition CLOCK_MONOTONIC : Z := 4.

(** A pointer is the address it holds; [NULL] is address 0. *)
Definition NULL : Z := 0.

(** ** Argument records *)

Record timespec : Type := mk_timespec {
  tv_sec : Z;
  tv_nsec : Z
}.

(** The six parameters shared by every entry point of the header.  The
    [const struct timespec *timeout] parameter is [None] for a null pointer
    and [Some ts] for a pointer to a [timespec] holding [ts]. *)
Record futex_args : Type := mk_futex_args {
  uaddr : Z;
  op : Z;
  val : Z;
  timeout : option timespec;
  uaddr2 : Z;
  val3 : Z
}.

(** FreeBSD's [struct _umtx_time]. *)
Record _umtx_time : Type := mk_umtx_time {
  _timeout : timespec;
  _flags : Z;
  _clockid : Z
}.

(** [sizeof(struct _umtx_time)]: a 16-byte [timespec] and two 32-bit
    fields on 64-bit FreeBSD. *)
Definition sizeof_umtx_time : Z := 24.

(** The five parameters of [_umtx_op(obj, op, val, uaddr, uaddr2)].  The
    last one is a pointer to a local [_umtx_time] or null, and is kept as
    the structure it points to. *)
Record umtx_args : Type := mk_umtx_args {
  umtx_obj : Z;
  umtx_op : Z;
  umtx_val : Z;
  umtx_uaddr : Z;
  umtx_uaddr2 : option _umtx_time
}.

(** ** The world outside the header *)

(** One external call, with the arguments it was given. *)
Inductive call : Type :=
| Sys_futex (a : futex_args)
| Compat_futex_noasync (a : futex_args)
| Compat_futex_async (a : futex_args)
| Umtx_op (u : umtx_args).

(** What an external function can read and change: [errno] and everything
    else (kernel, memory, clocks), kept abstract in [K]. *)
Record world (K : Type) : Type := mk_world {
  errno : Z;
  kernel : K
}.
Arguments mk_world {K} _ _.
Arguments errno {K} _.
Arguments kernel {K} _.

(** The externals the header is compiled against.  Nothing is assumed about
    what they return or how they change the world. *)
Class Host (K : Type) : Type := {
  syscall_futex : futex_args -> world K -> Z * world K;
  lttng_ust_compat_futex_noasync : futex_args -> world K -> Z * world K;
  lttng_ust_compat_futex_async : futex_args -> world K -> Z * world K;
  _umtx_op : umtx_args -> world K -> Z * world K
}.

Definition respond {K} `{Host K} (c : call) : world K -> Z * world K :=
  match c with
  | Sys_futex a => syscall_futex a
  | Compat_futex_noasync a => lttng_ust_compat_futex_noasync a
  | Compat_futex_async a => lttng_ust_compat_futex_async a
  | Umtx_op u => _umtx_op u
  end.

(** ** The monad *)

(** The outcome of running a piece of the header: its value, the world it
    leaves, and the external calls it made, oldest first. *)
Record outcome (K A : Type) : Type := mk_outcome {
  retval : A;
  final : world K;
  trace : list call
}.
Arguments mk_outcome {K A} _ _ _.
Arguments retval {K A} _.
Arguments final {K A} _.
Arguments trace {K A} _.

Definition M (K A : Type) : Type := world K -> outcome K A.

Definition ret {K A} (a : A) : M K A :=
  fun w => mk_outcome a w [].

Definition bind {K A B} (m : M K A) (f : A -> M K B) : M K B :=
  fun w =>
    let o1 := m w in
    let o2 := f (retval o1) (final o1) in
    mk_outcome (retval o2) (final o2) (trace o1 ++ trace o2).

Declare Scope futex_scope.
Delimit Scope futex_scope with futex.
Notation "x <- m ;; k" := (bind m (fun x => k))
  (at level 61, m at next level, right associativity) : futex_scope.
Notation "m ;;; k" := (bind m (fun _ => k))
  (at level 61, right associativity) : futex_scope.

(** Calling an external function: ask the host, log the call. *)
Definition extcall {K} `{Host K} (c : call) : M K Z :=
  fun w => let (r, w') := respond c w in mk_outcome r w' [c].

Definition get_errno {K} : M K Z :=
  fun w => mk_outcome (errno w) w [].

Definition set_errno {K} (e : Z) : M K unit :=
  fun w => mk_outcome tt (mk_world e (kernel w)) [].

(** ** Family A: Linux with [__NR_futex] *)

Module Linux.
Section WithHost.
Context {K : Type} `{Host K}.
Local Open Scope futex_scope.

Definition lttng_ust_futex (a : futex_args) : M K Z :=
  r <- extcall (Sys_futex a) ;;
  ret (to_int r).

(** The test [ret < 0 && errno == ENOSYS]: [errno] is read only when the
    left operand holds. *)
Definition is_enosys_failure (r : Z) : M K bool :=
  if r <? 0
  then e <- get_errno ;; ret (e =? ENOSYS)
  else ret false.

Definition lttng_ust_futex_noasync (a : futex_args) : M K Z :=
  r <- lttng_ust_futex a ;;
  c <- is_enosys_failure r ;;
  if c : bool
  then extcall (Compat_futex_async a)
  else ret r.

Definition lttng_ust_futex_async (a : futex_args) : M K Z :=
  r <- lttng_ust_futex a ;;
  c <- is_enosys_failure r ;;
  if c : bool
  then extcall (Compat_futex_async a)
  else ret r.

End WithHost.
End Linux.

(** ** Family B: FreeBSD, [_umtx_op] *)

Module FreeBSD.
Section WithHost.
Context {K : Type} `{Host K}.
Local Open Scope futex_scope.

Definition lttng_ust_futex_async (a : futex_args) : M K Z :=
  let umtx_timeout := mk_umtx_time (mk_timespec 0 0) UMTX_ABSTIME CLOCK_MONOTONIC in
  if op a =? FUTEX_WAIT then
    let '(umtx_uaddr, umtx_uaddr2) :=
      match timeout a with
      | Some ts =>
          (sizeof_umtx_time,
           Some (mk_umtx_time ts (_flags umtx_timeout) (_clockid umtx_timeout)))
      | None => (NULL, None)
      end in
    extcall (Umtx_op (mk_umtx_args (uaddr a) UMTX_OP_WAIT_UINT
                                   (to_uint32 (val a)) umtx_uaddr umtx_uaddr2))
  else if op a =? FUTEX_WAKE then
    extcall (Umtx_op (mk_umtx_args (uaddr a) UMTX_OP_WAKE
                                   (to_uint32 (val a)) NULL None))
  else
    set_errno EINVAL ;;;
    ret (-1).

Definition lttng_ust_futex_noasync (a : futex_args) : M K Z :=
  lttng_ust_futex_async a.

End WithHost.
End FreeBSD.

(** ** Family C: Cygwin *)

Module Cygwin.
Section WithHost.
Context {K : Type} `{Host K}.

Definition lttng_ust_futex_noasync (a : futex_args) : M K Z :=
  extcall (Compat_futex_async a).

Definition lttng_ust_futex_async (a : futex_args) : M K Z :=
  extcall (Compat_futex_async a).

End WithHost.
End Cygwin.

(** ** Family D: every other platform *)

Module Generic.
Section WithHost.
Context {K : Type} `{Host K}.

Definition lttng_ust_futex_noasync (a : futex_args) : M K Z :=
  extcall (Compat_futex_noasync a).

Definition lttng_ust_futex_async (a : futex_args) : M K Z :=
  extcall (Compat_futex_async a).

End WithHost.
End Generic.

(** ** Reading a trace *)

(** The calls that reach the fallback (compat) backend. *)
Definition is_fallback (c : call) : bool :=
  match c with
  | Compat_futex_noasync _ | Compat_futex_async _ => true
  | Sys_futex _ | Umtx_op _ => false
  end.

Definition is_noasync_fallback (c : call) : bool :=
  match c with
  | Compat_futex_noasync _ => true
  | _ => false
  end.

Definition is_umtx (c : call) : bool :=
  match c with
  | Umtx_op _ => true
  | _ => false
  end.

(** The reserved pair [(uaddr2, val3)] a backend call was handed.  The
    futex system call and the two compat functions take both parameters;
    [_umtx_op(obj, op, val, uaddr, uaddr2)] has no parameter for either:
    with [UMTX_OP_WAIT_UINT] its [uaddr] is the size of the timeout
    structure and its [uaddr2] the address of that structure. *)
Definition reserved_of (c : call) : option (Z * Z) :=
  match c with
  | Sys_futex b | Compat_futex_noasync b | Compat_futex_async b =>
      Some (uaddr2 b, val3 b)
  | Umtx_op _ => None
  end.

(** The same call with other reserved arguments. *)
Definition with_reserved (a : futex_args) (u2 v3 : Z) : futex_args :=
  mk_futex_args (uaddr a) (op a) (val a) (timeout a) u2 v3.

(** An entry point rejects a call when it returns -1 with [errno] set to
    [EINVAL] and has called no backend at all. *)
Definition rejects_as_invalid {K} (o : outcome K Z) : Prop :=
  retval o = -1 /\ errno (final o) = EINVAL /\ trace o = [].

(** How [_umtx_op] reads a [_umtx_time]: with [UMTX_ABSTIME] set in
    [_flags], [_timeout] is a point in time on clock [_clockid]; without
    it, [_timeout] is a duration counted from the call. *)
Definition umtx_timeout_is_absolute (t : _umtx_time) : bool :=
  negb (Z.land (_flags t) UMTX_ABSTIME =? 0).

(** ** Hosts to run the header on *)

(** The hosts below keep, as their kernel state, the number of external
    calls they have served. *)
Definition returns (r : Z) (w : world nat) : Z * world nat :=
  (r, mk_world (errno w) (S (kernel w))).

Definition fails (e : Z) (w : world nat) : Z * world nat :=
  (-1, mk_world e (S (kernel w))).

(** A fallback that accepts the two known operations. *)
Definition compat_stub (a : futex_args) : world nat -> Z * world nat :=
  if (op a =? FUTEX_WAIT) || (op a =? FUTEX_WAKE)
  then returns 0
  else fails EINVAL.

(** Every external succeeds with 0. *)
Definition host_quiet : Host nat :=
  {| syscall_futex := fun _ => returns 0;
     lttng_ust_compat_futex_noasync := fun _ => returns 0;
     lttng_ust_compat_futex_async := fun _ => returns 0;
     _umtx_op := fun _ => returns 0 |}.

(** A kernel whose futex system call is not implemented. *)
Definition host_without_futex : Host nat :=
  {| syscall_futex := fun _ => fails ENOSYS;
     lttng_ust_compat_futex_noasync := compat_stub;
     lttng_ust_compat_futex_async := compat_stub;
     _umtx_op := fun _ => fails ENOSYS |}.

(** A kernel whose futex wait is interrupted by a signal. *)
Definition host_interrupted : Host nat :=
  {| syscall_futex := fun _ => fails EINTR;
     lttng_ust_compat_futex_noasync := compat_stub;
     lttng_ust_compat_futex_async := compat_stub;
     _umtx_op := fun _ => fails EINTR |}.

Definition boot : world nat := mk_world 0 O.

(** ** Error pointers ([share/kernelcompat.h], ERROR OPS) *)

Module KernelCompat.

Definition MAX_ERRNO : Z := 4095.

(** The values of a signed integer type, and of an unsigned integer or
    pointer type, of a given width. *)
Definition is_long (bits e : Z) : Prop :=
  - 2 ^ (bits - 1) <= e < 2 ^ (bits - 1).

Definition is_pointer (bits p : Z) : Prop :=
  0 <= p < 2 ^ bits.

Section ErrorOps.

(** Width of [long] and [unsigned long], and width of [void *]. *)
Variable long_bits : Z.
Variable ptr_bits : Z.

(** The [unlikely] macro comes from [compiler.h], which is not part of the
    sources at hand; it is a parameter here. *)
Variable unlikely : Z -> Z.

Definition IS_ERR_VALUE (x : Z) : Z :=
  unlikely (if x >=? wrap_unsigned long_bits (- MAX_ERRNO) then 1 else 0).

Definition ERR_PTR (error : Z) : Z :=
  wrap_unsigned ptr_bits error.

Definition PTR_ERR (ptr : Z) : Z :=
  wrap_signed long_bits ptr.

Definition IS_ERR (ptr : Z) : Z :=
  IS_ERR_VALUE (wrap_unsigned long_bits ptr).

End ErrorOps.

(** A branch-prediction hint hands back the truth value it is given. *)
Definition is_branch_hint (unlikely : Z -> Z) : Prop :=
  unlikely 0 = 0 /\ unlikely 1 = 1.

(** The hint as GCC-style headers write it, [__builtin_expect(!!(x), 0)]. *)
Definition builtin_unlikely (x : Z) : Z :=
  if x =? 0 then 0 else 1.

End KernelCompat.

(** ** Vocabulary of the statements *)

(** [o] hands back what one external call [r] answered, after the
    external calls [t] and no other. *)
Definition answers_with {K} (o : outcome K Z) (r : Z * world K)
    (t : list call) : Prop :=
  retval o = fst r /\ final o = snd r /\ trace o = t.

(** Every backend call of [o] was handed the reserved arguments of [a]. *)
Definition forwards_reserved {K} (a : futex_args) (o : outcome K Z) : Prop :=
  Forall (fun c => reserved_of c = Some (uaddr2 a, val3 a)) (trace o).

(** The dispatch algorithm in the words of the design (one native call;
    on the "unsupported" failure, one redirect to the async-safe fallback;
    any other native result returned as it is), to compare the two Linux
    entry points with. *)
Definition dispatch_by_design {K} `{Host K} (a : futex_args) (w : world K)
    : outcome K Z :=
  let native := Linux.lttng_ust_futex a w in
  if (retval native <? 0) && (errno (final native) =? ENOSYS)
  then
    let fallback := extcall (Compat_futex_async a) (final native) in
    mk_outcome (retval fallback) (final fallback)
               (trace native ++ trace fallback)
  else native.

(** Sample calls: a timed wait with both reserved arguments in use, and a
    call with an operation code that is neither WAIT nor WAKE. *)
Definition timed_wait : futex_args :=
  mk_futex_args 4096 FUTEX_WAIT 7 (Some (mk_timespec 1 0)) 8192 9.

Definition bad_op : futex_args :=
  mk_futex_args 4096 2 7 None 0 0.

(** ** Bit helpers ([share/kernelcompat.h], MATH and alignment) *)

Module Bits.

(** [unsigned int] arithmetic. *)
Definition to_uint (z : Z) : Z := wrap_unsigned 32 z.

Definition hweight32 (w : Z) : Z :=
  let res := to_uint (w - Z.land (Z.shiftr w 1) 0x55555555) in
  let res := to_uint (Z.land res 0x33333333
                      + Z.land (Z.shiftr res 2) 0x33333333) in
  let res := Z.land (to_uint (res + Z.shiftr res 4)) 0x0F0F0F0F in
  let res := to_uint (res + Z.shiftr res 8) in
  Z.land (to_uint (res + Z.shiftr res 16)) 0x000000FF.

(** x86 [bsrl src, dst]: the index of the most significant set bit of a
    32-bit source.  With a zero source the zero flag is raised and the
    destination is left undefined, which is [None] here. *)
Definition bsrl (src : Z) : option Z :=
  if src =? 0 then None else Some (Z.log2 src).

(** [fls]: [bsrl x, r] followed by [cmovzl $-1, r], then [r + 1]. *)
Definition fls (x : Z) : Z :=
  let r := match bsrl (to_uint x) with
           | Some i => i
           | None => -1
           end in
  to_int (r + 1).

Definition get_count_order (count : Z) : Z :=
  let order := to_int (fls (to_int count) - 1) in
  if Z.land count (to_uint (count - 1)) =? 0
  then order
  else to_int (order + 1).

(** [__ALIGN_MASK] and [ALIGN] at an unsigned type [typeof(x)] that is
    [bits] wide.  An operand of a type narrower than [int]
    ([unsigned char], [unsigned short]) is promoted to [int] before [+],
    [-], [~] and [&], so nothing wraps at [bits] there and the result is an
    [int]; at [unsigned int] and wider the arithmetic is modulo
    [2 ^ bits]. *)
Definition promoted_to_int (bits : Z) : bool := bits <? 32.

Definition __ALIGN_MASK (bits x mask : Z) : Z :=
  if promoted_to_int bits
  then Z.land (x + mask) (Z.lnot mask)
  else Z.land (wrap_unsigned bits (x + mask))
              (wrap_unsigned bits (Z.lnot mask)).

Definition ALIGN (bits x a : Z) : Z :=
  __ALIGN_MASK bits x
    (if promoted_to_int bits
     then wrap_unsigned bits a - 1
     else wrap_unsigned bits (wrap_unsigned bits a - 1)).

(** The number of set bits among the low 32, to compare [hweight32] with. *)
Definition popcount32 (w : Z) : Z :=
  fold_right Z.add 0
    (map (fun i => Z.b2z (Z.testbit w (Z.of_nat i))) (seq 0 32)).

End Bits.

(** ** Counters ([share/kernelcompat.h], ATOMICITY) *)

Module Atomic.

Definition INT_MIN : Z := - 2 ^ 31.
Definition INT_MAX : Z := 2 ^ 31 - 1.

(** [atomic_t]; [sig_atomic_t] is [int]. *)
Record atomic_t : Type := mk_atomic { counter : Z }.

(** Signed overflow of the counter is undefined in C: the two functions
    that step the counter answer [None] there. *)
Definition atomic_dec_and_test (p : atomic_t) : option (Z * atomic_t) :=
  if counter p =? INT_MIN then None
  else
    let p' := mk_atomic (counter p - 1) in
    Some ((if counter p' =? 0 then 1 else 0), p').

Definition atomic_set (p : atomic_t) (v : Z) : atomic_t :=
  mk_atomic v.

Definition atomic_inc (p : atomic_t) : option atomic_t :=
  if counter p =? INT_MAX then None
  else Some (mk_atomic (counter p + 1)).

Definition atomic_read (p : atomic_t) : Z :=
  counter p.

(** [k] calls of [atomic_dec_and_test] in a row, with what each returned. *)
Fixpoint dec_and_test_times (k : nat) (p : atomic_t)
    : option (list Z * atomic_t) :=
  match k with
  | O => Some ([], p)
  | S k' =>
      match atomic_dec_and_test p with
      | None => None
      | Some (r, p') =>
          match dec_and_test_times k' p' with
          | None => None
          | Some (rs, p'') => Some (r :: rs, p'')
          end
      end
  end.

End Atomic.

(** ** [min_t] and [max_t] *)

Module MinMax.

(** The macros convert both operands to [type] first; [conv] is that
    conversion. *)
Definition min_t (conv : Z -> Z) (x y : Z) : Z :=
  let __min1 := conv x in
  let __min2 := conv y in
  if __min1 <? __min2 then __min1 else __min2.

Definition max_t (conv : Z -> Z) (x y : Z) : Z :=
  let __max1 := conv x in
  let __max2 := conv y in
  if __max1 >? __max2 then __max1 else __max2.

End MinMax.

(** ** Bytes of a 32-bit word

    [hweight32] works on all four bytes of its argument at once; the
    definitions below name what happens to one byte. *)

(** The word whose bytes are [a] (lowest), [b], [c] and [d]. *)
Definition bytes4 (a b c d : Z) : Z :=
  a + 2 ^ 8 * (b + 2 ^ 8 * (c + 2 ^ 8 * d)).

(** The number of set bits of [w] among the positions in [l]. *)
Definition sum_bits (w : Z) (l : list nat) : Z :=
  fold_right Z.add 0 (map (fun i => Z.b2z (Z.testbit w (Z.of_nat i))) l).

Definition pop8 (a : Z) : Z := sum_bits a (seq 0 8).

(** The first two statements of [hweight32], on one byte. *)
Definition pairs8 (a : Z) : Z := a - Z.land (Z.shiftr a 1) 0x55.

Definition quads8 (a : Z) : Z := Z.land a 0x33 + Z.land (Z.shiftr a 2) 0x33.

(** What the first two statements achieve on a byte: no borrow, and two
    nibbles that count the set bits of each half of the byte. *)
Definition byte_steps_ok (a : Z) : bool :=
  let a1 := pairs8 a in
  let a2 := quads8 a1 in
  (0 <=? a1) && (a1 <? 256)
  && (0 <=? a2) && (a2 mod 16 <=? 4) && (a2 / 16 <=? 4)
  && (a2 mod 16 + a2 / 16 =? pop8 a).

(** A byte whose two nibbles are at most 4. *)
Definition small_nibbles (x : Z) : Prop :=
  0 <= x /\ x mod 16 <= 4 /\ x / 16 <= 4.

(** * Facts *)

(** ** Running the monad *)

Section Running.
Context {K : Type} `{Host K}.

Lemma extcall_answers (c : call) (w : world K) :
  answers_with (extcall c w) (respond c w) [c].
Proof.
  unfold answers_with, extcall.
  destruct (respond c w) as [r w']; cbn; auto.
Qed.

Lemma linux_futex_outcome (a : futex_args) (w : world K) :
  Linux.lttng_ust_futex a w =
  mk_outcome (to_int (fst (syscall_futex a w))) (snd (syscall_futex a w))
             [Sys_futex a].
Proof.
  unfold Linux.lttng_ust_futex, bind, extcall, ret; cbn.
  destruct (syscall_futex a w) as [r w']; reflexivity.
Qed.

Lemma enosys_test_pure (r : Z) (w : world K) :
  Linux.is_enosys_failure r w =
  mk_outcome ((r <? 0) && (errno w =? ENOSYS)) w [].
Proof.
  unfold Linux.is_enosys_failure, bind, get_errno, ret.
  destruct (r <? 0); reflexivity.
Qed.

(** The Linux entry points, written out as one case split on the result of
    the native call. *)
Lemma linux_dispatch (a : futex_args) (w : world K) :
  Linux.lttng_ust_futex_async a w = dispatch_by_design a w.
Proof.
  unfold dispatch_by_design; cbn zeta.
  unfold Linux.lttng_ust_futex_async, bind.
  rewrite enosys_test_pure, linux_futex_outcome; cbn.
  destruct ((to_int (fst (syscall_futex a w)) <? 0)
            && (errno (snd (syscall_futex a w)) =? ENOSYS)); reflexivity.
Qed.

Lemma enosys_test_true (r e : Z) :
  r < 0 -> e = ENOSYS -> (r <? 0) && (e =? ENOSYS) = true.
Proof.
  intros Hr He. apply andb_true_iff; split.
  - now apply Z.ltb_lt.
  - now apply Z.eqb_eq.
Qed.

Lemma enosys_test_false (r e : Z) :
  ~ (r < 0 /\ e = ENOSYS) -> (r <? 0) && (e =? ENOSYS) = false.
Proof.
  intros Hn. apply andb_false_iff.
  destruct (Z.ltb_spec r 0) as [Hr | Hr]; [right | now left].
  apply Z.eqb_neq. intros He. apply Hn. now split.
Qed.

End Running.

(** ** Family A *)

(** C9.  On Linux the noasync entry point and the async entry point are the
    same function: for every host, every argument tuple and every starting
    world they return the same value, leave the same world (so the same
    [errno]) and make the same external calls; and that common behaviour is
    the dispatch of the design: the native futex first, then
    [lttng_ust_compat_futex_async] when it failed with [ENOSYS]. *)
Theorem linux_noasync_is_async :
  forall (K : Type) (H : Host K) (a : futex_args) (w : world K),
    Linux.lttng_ust_futex_noasync a w = Linux.lttng_ust_futex_async a w
    /\ Linux.lttng_ust_futex_noasync a w = dispatch_by_design a w
    /\ Linux.lttng_ust_futex_async a w = dispatch_by_design a w.
Proof.
  intros K H a w.
  split; [reflexivity |].
  split; apply linux_dispatch.
Qed.

(** C1.  On Linux, when the native futex call returns a negative value with
    [errno] equal to [ENOSYS], each entry point calls
    [lttng_ust_compat_futex_async] once, with the caller's arguments and in
    the world the native call left, and hands back that call's value and
    world.  The external calls are the native one followed by that single
    redirect; the noasync fallback is not among them. *)
Theorem linux_enosys_redirects_to_compat_async :
  forall (K : Type) (H : Host K) (a : futex_args) (w : world K),
    retval (Linux.lttng_ust_futex a w) < 0 ->
    errno (final (Linux.lttng_ust_futex a w)) = ENOSYS ->
    answers_with (Linux.lttng_ust_futex_noasync a w)
      (lttng_ust_compat_futex_async a (final (Linux.lttng_ust_futex a w)))
      [Sys_futex a; Compat_futex_async a]
    /\ answers_with (Linux.lttng_ust_futex_async a w)
      (lttng_ust_compat_futex_async a (final (Linux.lttng_ust_futex a w)))
      [Sys_futex a; Compat_futex_async a].
Proof.
  intros K H a w Hneg Herr.
  change (Linux.lttng_ust_futex_noasync a w)
    with (Linux.lttng_ust_futex_async a w).
  assert (Hgoal : answers_with (Linux.lttng_ust_futex_async a w)
      (lttng_ust_compat_futex_async a (final (Linux.lttng_ust_futex a w)))
      [Sys_futex a; Compat_futex_async a]).
  { rewrite linux_dispatch; unfold dispatch_by_design; cbn zeta.
    rewrite (enosys_test_true _ _ Hneg Herr).
    pose proof (extcall_answers (Compat_futex_async a)
                  (final (Linux.lttng_ust_futex a w))) as (Hr & Hf & Ht).
    unfold answers_with; cbn [retval final trace respond] in *.
    rewrite Hr, Hf, Ht, linux_futex_outcome. auto. }
  split; exact Hgoal.
Qed.

(** The redirect, run on a kernel without futex support: the fallback's 0
    comes back, after the native call and one call to the async fallback. *)
Lemma linux_enosys_redirect_witness :
  answers_with
    (@Linux.lttng_ust_futex_noasync nat host_without_futex timed_wait boot)
    (0, mk_world ENOSYS 2%nat)
    [Sys_futex timed_wait; Compat_futex_async timed_wait]
  /\ answers_with
    (@Linux.lttng_ust_futex_async nat host_without_futex timed_wait boot)
    (0, mk_world ENOSYS 2%nat)
    [Sys_futex timed_wait; Compat_futex_async timed_wait].
Proof.
  apply (linux_enosys_redirects_to_compat_async
           nat host_without_futex timed_wait boot).
  - vm_compute. reflexivity.
  - vm_compute. reflexivity.
Defined.

(** C5.  On Linux, when the native futex call does not fail with [ENOSYS]
    (it returns a non-negative value, or a negative one with another
    [errno]), each entry point is the native call and nothing more: same
    value, same world and [errno], and the futex system call, made once, as
    the only external call. *)
Theorem linux_other_results_verbatim :
  forall (K : Type) (H : Host K) (a : futex_args) (w : world K),
    0 <= retval (Linux.lttng_ust_futex a w)
    \/ (retval (Linux.lttng_ust_futex a w) < 0
        /\ errno (final (Linux.lttng_ust_futex a w)) <> ENOSYS) ->
    Linux.lttng_ust_futex_noasync a w = Linux.lttng_ust_futex a w
    /\ Linux.lttng_ust_futex_async a w = Linux.lttng_ust_futex a w
    /\ trace (Linux.lttng_ust_futex a w) = [Sys_futex a].
Proof.
  intros K H a w Hother.
  change (Linux.lttng_ust_futex_noasync a w)
    with (Linux.lttng_ust_futex_async a w).
  assert (Hsame : Linux.lttng_ust_futex_async a w = Linux.lttng_ust_futex a w).
  { rewrite linux_dispatch; unfold dispatch_by_design; cbn zeta.
    rewrite enosys_test_false; [reflexivity |].
    intros [Hneg Herr]. destruct Hother as [Hpos | [_ Hne]]; [lia | auto]. }
  repeat split; try exact Hsame.
  rewrite linux_futex_outcome. reflexivity.
Qed.

(** An interrupted wait: -1 with [errno] [EINTR] reaches the caller of
    either entry point, after a single futex system call. *)
Lemma linux_eintr_witness :
  @Linux.lttng_ust_futex_noasync nat host_interrupted timed_wait boot
    = mk_outcome (-1) (mk_world EINTR 1%nat) [Sys_futex timed_wait]
  /\ @Linux.lttng_ust_futex_async nat host_interrupted timed_wait boot
    = mk_outcome (-1) (mk_world EINTR 1%nat) [Sys_futex timed_wait]
  /\ trace (@Linux.lttng_ust_futex nat host_interrupted timed_wait boot)
    = [Sys_futex timed_wait].
Proof.
  apply (linux_other_results_verbatim nat host_interrupted timed_wait boot).
  right. split.
  - vm_compute. reflexivity.
  - vm_compute. discriminate.
Defined.

(** ** Family B *)

Section FreeBSDFacts.
Context {K : Type} `{Host K}.

(** What [lttng_ust_futex_async] asks of [_umtx_op] for a wait. *)
Lemma freebsd_wait_request (a : futex_args) (w : world K) :
  op a = FUTEX_WAIT ->
  FreeBSD.lttng_ust_futex_async a w =
  extcall (Umtx_op (mk_umtx_args (uaddr a) UMTX_OP_WAIT_UINT (to_uint32 (val a))
             (match timeout a with Some _ => sizeof_umtx_time | None => NULL end)
             (match timeout a with
              | Some ts => Some (mk_umtx_time ts UMTX_ABSTIME CLOCK_MONOTONIC)
              | None => None
              end))) w.
Proof.
  intros Hop. unfold FreeBSD.lttng_ust_futex_async.
  rewrite Hop; cbn [Z.eqb FUTEX_WAIT].
  destruct (timeout a); reflexivity.
Qed.

Lemma freebsd_wake_request (a : futex_args) (w : world K) :
  op a = FUTEX_WAKE ->
  FreeBSD.lttng_ust_futex_async a w =
  extcall (Umtx_op (mk_umtx_args (uaddr a) UMTX_OP_WAKE (to_uint32 (val a))
             NULL None)) w.
Proof.
  intros Hop. unfold FreeBSD.lttng_ust_futex_async.
  rewrite Hop. reflexivity.
Qed.

Lemma freebsd_unknown_op (a : futex_args) (w : world K) :
  op a <> FUTEX_WAIT -> op a <> FUTEX_WAKE ->
  FreeBSD.lttng_ust_futex_async a w =
  mk_outcome (-1) (mk_world EINVAL (kernel w)) [].
Proof.
  intros Hwait Hwake. unfold FreeBSD.lttng_ust_futex_async.
  apply Z.eqb_neq in Hwait. apply Z.eqb_neq in Hwake.
  rewrite Hwait, Hwake. reflexivity.
Qed.

(** The entry point makes no external call, or one call to [_umtx_op]. *)
Lemma freebsd_trace_shape (a : futex_args) (w : world K) :
  trace (FreeBSD.lttng_ust_futex_async a w) = []
  \/ exists u, trace (FreeBSD.lttng_ust_futex_async a w) = [Umtx_op u].
Proof.
  destruct (Z.eq_dec (op a) FUTEX_WAIT) as [Hwait | Hwait].
  - right. rewrite (freebsd_wait_request a w Hwait).
    eexists. apply extcall_answers.
  - destruct (Z.eq_dec (op a) FUTEX_WAKE) as [Hwake | Hwake].
    + right. rewrite (freebsd_wake_request a w Hwake).
      eexists. apply extcall_answers.
    + left. rewrite (freebsd_unknown_op a w Hwait Hwake). reflexivity.
Qed.

(** A WAIT or a WAKE is one [_umtx_op] call, on the caller's address, whose
    answer comes back as it is. *)
Lemma freebsd_one_umtx_call (a : futex_args) (w : world K) :
  op a = FUTEX_WAIT \/ op a = FUTEX_WAKE ->
  exists u : umtx_args,
    answers_with (FreeBSD.lttng_ust_futex_async a w) (_umtx_op u w) [Umtx_op u]
    /\ umtx_obj u = uaddr a
    /\ umtx_val u = val a mod 2 ^ 32
    /\ umtx_op u
       = (if op a =? FUTEX_WAIT then UMTX_OP_WAIT_UINT else UMTX_OP_WAKE)
    /\ umtx_uaddr2 u
       = (if op a =? FUTEX_WAIT
          then option_map
                 (fun ts => mk_umtx_time ts UMTX_ABSTIME CLOCK_MONOTONIC)
                 (timeout a)
          else None)
    /\ umtx_uaddr u
       = (match umtx_uaddr2 u with
          | Some _ => sizeof_umtx_time
          | None => NULL
          end).
Proof.
  intros [Hop | Hop].
  - eexists. rewrite (freebsd_wait_request a w Hop).
    split; [apply (extcall_answers (Umtx_op _) w) |].
    rewrite Hop. cbn. destruct (timeout a); repeat split; reflexivity.
  - eexists. rewrite (freebsd_wake_request a w Hop).
    split; [apply (extcall_answers (Umtx_op _) w) |].
    rewrite Hop. cbn. repeat split; reflexivity.
Qed.

End FreeBSDFacts.

(** C6.  On FreeBSD the noasync entry point returns exactly what the async
    one returns (value, world, external calls), and neither reaches the
    fallback: the external calls of a run are calls to [_umtx_op], at most
    one of them.  Both translate a WAIT or a WAKE into that one [_umtx_op]
    call, made on the caller's address with the operation translated,
    [val] as a 32-bit unsigned number and the timeout structure of a timed
    WAIT, and hand back its value and world. *)
Theorem freebsd_noasync_is_async_without_fallback :
  forall (K : Type) (H : Host K) (a : futex_args) (w : world K),
    FreeBSD.lttng_ust_futex_noasync a w = FreeBSD.lttng_ust_futex_async a w
    /\ existsb is_fallback (trace (FreeBSD.lttng_ust_futex_noasync a w)) = false
    /\ existsb is_fallback (trace (FreeBSD.lttng_ust_futex_async a w)) = false
    /\ forallb is_umtx (trace (FreeBSD.lttng_ust_futex_async a w)) = true
    /\ (length (trace (FreeBSD.lttng_ust_futex_async a w)) <= 1)%nat
    /\ (op a = FUTEX_WAIT \/ op a = FUTEX_WAKE ->
        exists u : umtx_args,
          answers_with (FreeBSD.lttng_ust_futex_noasync a w)
                       (_umtx_op u w) [Umtx_op u]
          /\ answers_with (FreeBSD.lttng_ust_futex_async a w)
                          (_umtx_op u w) [Umtx_op u]
          /\ umtx_obj u = uaddr a
          /\ umtx_val u = val a mod 2 ^ 32
          /\ umtx_op u
             = (if op a =? FUTEX_WAIT
                then UMTX_OP_WAIT_UINT else UMTX_OP_WAKE)
          /\ umtx_uaddr2 u
             = (if op a =? FUTEX_WAIT
                then option_map
                       (fun ts => mk_umtx_time ts UMTX_ABSTIME CLOCK_MONOTONIC)
                       (timeout a)
                else None)
          /\ umtx_uaddr u
             = (match umtx_uaddr2 u with
                | Some _ => sizeof_umtx_time
                | None => NULL
                end)).
Proof.
  intros K H a w.
  change (FreeBSD.lttng_ust_futex_noasync a w)
    with (FreeBSD.lttng_ust_futex_async a w).
  split; [reflexivity |].
  assert (Hcalls :
    existsb is_fallback (trace (FreeBSD.lttng_ust_futex_async a w)) = false
    /\ forallb is_umtx (trace (FreeBSD.lttng_ust_futex_async a w)) = true
    /\ (length (trace (FreeBSD.lttng_ust_futex_async a w)) <= 1)%nat).
  { destruct (freebsd_trace_shape a w) as [Ht | [u Ht]]; rewrite Ht; cbn; auto. }
  destruct Hcalls as (Hfb & Humtx & Hlen).
  repeat (split; [assumption |]).
  intros Hop.
  destruct (freebsd_one_umtx_call a w Hop)
    as (u & Hans & Hobj & Hval & Hopc & Hto & Hsz).
  exists u. repeat (split; [assumption |]). exact Hsz.
Qed.

(** A timed wait on FreeBSD, on either entry point: one [_umtx_op] call
    of [UMTX_OP_WAIT_UINT] on address 4096 with value 7, whose answer comes
    back. *)
Lemma freebsd_translation_witness :
  exists u : umtx_args,
    answers_with (@FreeBSD.lttng_ust_futex_noasync nat host_quiet timed_wait boot)
                 (@_umtx_op nat host_quiet u boot) [Umtx_op u]
    /\ answers_with (@FreeBSD.lttng_ust_futex_async nat host_quiet timed_wait boot)
                    (@_umtx_op nat host_quiet u boot) [Umtx_op u]
    /\ umtx_obj u = 4096
    /\ umtx_val u = 7 mod 2 ^ 32
    /\ umtx_op u = UMTX_OP_WAIT_UINT
    /\ umtx_uaddr2 u
       = Some (mk_umtx_time (mk_timespec 1 0) UMTX_ABSTIME CLOCK_MONOTONIC)
    /\ umtx_uaddr u
       = (match umtx_uaddr2 u with
          | Some _ => sizeof_umtx_time
          | None => NULL
          end).
Proof.
  destruct (freebsd_noasync_is_async_without_fallback
              nat host_quiet timed_wait boot) as (_ & _ & _ & _ & _ & Htr).
  apply Htr. left. reflexivity.
Defined.

(** C3.  A timed wait on FreeBSD, run: the caller's [timespec] of one
    second reaches [_umtx_op] unchanged inside a [_umtx_time] whose flags
    are [UMTX_ABSTIME], which [_umtx_op] reads as a point in time on
    [CLOCK_MONOTONIC] and not as a duration. *)
Theorem freebsd_timed_wait_is_flagged_absolute :
  trace (@FreeBSD.lttng_ust_futex_async nat host_quiet timed_wait boot)
    = [Umtx_op (mk_umtx_args 4096 UMTX_OP_WAIT_UINT 7 sizeof_umtx_time
         (Some (mk_umtx_time (mk_timespec 1 0) UMTX_ABSTIME CLOCK_MONOTONIC)))]
  /\ umtx_timeout_is_absolute
       (mk_umtx_time (mk_timespec 1 0) UMTX_ABSTIME CLOCK_MONOTONIC) = true.
Proof.
  split.
  - rewrite (freebsd_wait_request (H := host_quiet) timed_wait boot eq_refl).
    reflexivity.
  - reflexivity.
Qed.

(** ** Families C and D *)

(** C7.  On Cygwin both entry points are one call to
    [lttng_ust_compat_futex_async] with the caller's arguments, whose value
    and world they hand back; [lttng_ust_compat_futex_noasync] is not
    called. *)
Theorem cygwin_both_delegate_to_compat_async :
  forall (K : Type) (H : Host K) (a : futex_args) (w : world K),
    answers_with (Cygwin.lttng_ust_futex_noasync a w)
      (lttng_ust_compat_futex_async a w) [Compat_futex_async a]
    /\ answers_with (Cygwin.lttng_ust_futex_async a w)
      (lttng_ust_compat_futex_async a w) [Compat_futex_async a]
    /\ existsb is_noasync_fallback
         (trace (Cygwin.lttng_ust_futex_noasync a w)) = false.
Proof.
  intros K H a w.
  pose proof (extcall_answers (Compat_futex_async a) w) as Hcall.
  repeat split; try apply Hcall.
  unfold Cygwin.lttng_ust_futex_noasync.
  destruct Hcall as (_ & _ & Ht). rewrite Ht. reflexivity.
Qed.

(** C8.  On the generic branch the noasync entry point is one call to
    [lttng_ust_compat_futex_noasync] and the async entry point one call to
    [lttng_ust_compat_futex_async], each with the caller's arguments, and
    each hands back the value and world of its call. *)
Theorem generic_delegates_to_same_named_compat :
  forall (K : Type) (H : Host K) (a : futex_args) (w : world K),
    answers_with (Generic.lttng_ust_futex_noasync a w)
      (lttng_ust_compat_futex_noasync a w) [Compat_futex_noasync a]
    /\ answers_with (Generic.lttng_ust_futex_async a w)
      (lttng_ust_compat_futex_async a w) [Compat_futex_async a].
Proof.
  intros K H a w. split.
  - apply (extcall_answers (Compat_futex_noasync a) w).
  - apply (extcall_answers (Compat_futex_async a) w).
Qed.

(** ** Unknown operation codes *)

(** C2, as written, fails outside FreeBSD.  With operation code 2 the Linux
    entry points make the futex system call (and, the kernel answering
    [ENOSYS], call the async fallback as well); the Cygwin and generic
    entry points call the fallback.  None of the six returns without a
    backend call. *)
Lemma unknown_op_reaches_backends :
  ~ rejects_as_invalid
      (@Linux.lttng_ust_futex_noasync nat host_without_futex bad_op boot)
  /\ ~ rejects_as_invalid
      (@Linux.lttng_ust_futex_async nat host_without_futex bad_op boot)
  /\ ~ rejects_as_invalid
      (@Cygwin.lttng_ust_futex_noasync nat host_without_futex bad_op boot)
  /\ ~ rejects_as_invalid
      (@Cygwin.lttng_ust_futex_async nat host_without_futex bad_op boot)
  /\ ~ rejects_as_invalid
      (@Generic.lttng_ust_futex_noasync nat host_without_futex bad_op boot)
  /\ ~ rejects_as_invalid
      (@Generic.lttng_ust_futex_async nat host_without_futex bad_op boot)
  /\ trace (@Linux.lttng_ust_futex_noasync nat host_without_futex bad_op boot)
     = [Sys_futex bad_op; Compat_futex_async bad_op]
  /\ trace (@Generic.lttng_ust_futex_noasync nat host_without_futex bad_op boot)
     = [Compat_futex_noasync bad_op].
Proof.
  repeat split; try reflexivity;
    intros (_ & _ & Ht); vm_compute in Ht; discriminate Ht.
Qed.

(** C2, amended.  For an operation code that is neither WAIT nor WAKE:
    on FreeBSD both entry points return -1 with [errno] set to [EINVAL],
    call no backend and leave the rest of the world as it was; on Linux,
    Cygwin and the generic branch the entry points do not look at the
    operation code and start by handing the caller's arguments, operation
    code included, to their backend (the futex system call on Linux, the
    async fallback on Cygwin, the same-named fallback elsewhere), and that
    backend's answer is the result: the Cygwin and generic entry points
    hand back the value and world of their one fallback call; the Linux
    entry points hand back the system call's value (as an [int]) and world,
    unless that is a failure with [ENOSYS], in which case they hand back
    the value and world of one call to the async fallback. *)
Theorem unknown_op_policy :
  forall (K : Type) (H : Host K) (a : futex_args) (w : world K),
    op a <> FUTEX_WAIT -> op a <> FUTEX_WAKE ->
    (rejects_as_invalid (FreeBSD.lttng_ust_futex_noasync a w)
     /\ rejects_as_invalid (FreeBSD.lttng_ust_futex_async a w)
     /\ kernel (final (FreeBSD.lttng_ust_futex_noasync a w)) = kernel w
     /\ kernel (final (FreeBSD.lttng_ust_futex_async a w)) = kernel w)
    /\ (hd_error (trace (Linux.lttng_ust_futex_noasync a w)) = Some (Sys_futex a)
        /\ hd_error (trace (Linux.lttng_ust_futex_async a w)) = Some (Sys_futex a)
        /\ trace (Cygwin.lttng_ust_futex_noasync a w) = [Compat_futex_async a]
        /\ trace (Cygwin.lttng_ust_futex_async a w) = [Compat_futex_async a]
        /\ trace (Generic.lttng_ust_futex_noasync a w) = [Compat_futex_noasync a]
        /\ trace (Generic.lttng_ust_futex_async a w) = [Compat_futex_async a])
    /\ (answers_with (Cygwin.lttng_ust_futex_noasync a w)
          (lttng_ust_compat_futex_async a w) [Compat_futex_async a]
        /\ answers_with (Cygwin.lttng_ust_futex_async a w)
             (lttng_ust_compat_futex_async a w) [Compat_futex_async a]
        /\ answers_with (Generic.lttng_ust_futex_noasync a w)
             (lttng_ust_compat_futex_noasync a w) [Compat_futex_noasync a]
        /\ answers_with (Generic.lttng_ust_futex_async a w)
             (lttng_ust_compat_futex_async a w) [Compat_futex_async a])
    /\ (if (to_int (fst (syscall_futex a w)) <? 0)
           && (errno (snd (syscall_futex a w)) =? ENOSYS)
        then
          answers_with (Linux.lttng_ust_futex_noasync a w)
            (lttng_ust_compat_futex_async a (snd (syscall_futex a w)))
            [Sys_futex a; Compat_futex_async a]
          /\ answers_with (Linux.lttng_ust_futex_async a w)
               (lttng_ust_compat_futex_async a (snd (syscall_futex a w)))
               [Sys_futex a; Compat_futex_async a]
        else
          answers_with (Linux.lttng_ust_futex_noasync a w)
            (to_int (fst (syscall_futex a w)), snd (syscall_futex a w))
            [Sys_futex a]
          /\ answers_with (Linux.lttng_ust_futex_async a w)
               (to_int (fst (syscall_futex a w)), snd (syscall_futex a w))
               [Sys_futex a]).
Proof.
  intros K H a w Hwait Hwake. split; [| split; [| split]].
  - change (FreeBSD.lttng_ust_futex_noasync a w)
      with (FreeBSD.lttng_ust_futex_async a w).
    rewrite (freebsd_unknown_op a w Hwait Hwake).
    unfold rejects_as_invalid; cbn. repeat split; reflexivity.
  - change (Linux.lttng_ust_futex_noasync a w)
      with (Linux.lttng_ust_futex_async a w).
    assert (Hhd : hd_error (trace (Linux.lttng_ust_futex_async a w))
                  = Some (Sys_futex a)).
    { rewrite linux_dispatch; unfold dispatch_by_design; cbn zeta.
      rewrite linux_futex_outcome; cbn.
      destruct ((to_int (fst (syscall_futex a w)) <? 0)
                && (errno (snd (syscall_futex a w)) =? ENOSYS)); reflexivity. }
    repeat split; try exact Hhd;
      first [ apply (extcall_answers (Compat_futex_async a) w)
            | apply (extcall_answers (Compat_futex_noasync a) w) ].
  - repeat split;
      first [ apply (extcall_answers (Compat_futex_async a) w)
            | apply (extcall_answers (Compat_futex_noasync a) w) ].
  - change (Linux.lttng_ust_futex_noasync a w)
      with (Linux.lttng_ust_futex_async a w).
    rewrite linux_dispatch; unfold dispatch_by_design; cbn zeta.
    rewrite linux_futex_outcome; cbn [retval final trace].
    destruct ((to_int (fst (syscall_futex a w)) <? 0)
              && (errno (snd (syscall_futex a w)) =? ENOSYS)).
    + pose proof (extcall_answers (Compat_futex_async a)
                    (snd (syscall_futex a w))) as (Hr & Hf & Ht).
      cbn [respond] in Hr, Hf.
      assert (Hans : answers_with
                (mk_outcome
                   (retval (extcall (Compat_futex_async a)
                              (snd (syscall_futex a w))))
                   (final (extcall (Compat_futex_async a)
                             (snd (syscall_futex a w))))
                   ([Sys_futex a]
                    ++ trace (extcall (Compat_futex_async a)
                                (snd (syscall_futex a w)))))
                (lttng_ust_compat_futex_async a (snd (syscall_futex a w)))
                [Sys_futex a; Compat_futex_async a]).
      { unfold answers_with; cbn [retval final trace].
        rewrite Hr, Hf, Ht. repeat split; reflexivity. }
      split; exact Hans.
    + unfold answers_with; cbn [retval final trace fst snd].
      repeat split; reflexivity.
Qed.

(** On FreeBSD operation code 2 is turned down at once; elsewhere the same
    call goes to the backend and the backend's answer (0 from this host)
    comes back. *)
Lemma unknown_op_policy_witness :
  (rejects_as_invalid
     (@FreeBSD.lttng_ust_futex_noasync nat host_quiet bad_op boot)
   /\ rejects_as_invalid
     (@FreeBSD.lttng_ust_futex_async nat host_quiet bad_op boot)
   /\ kernel (final (@FreeBSD.lttng_ust_futex_noasync nat host_quiet bad_op boot))
      = O
   /\ kernel (final (@FreeBSD.lttng_ust_futex_async nat host_quiet bad_op boot))
      = O)
  /\ (hd_error (trace (@Linux.lttng_ust_futex_noasync nat host_quiet bad_op boot))
        = Some (Sys_futex bad_op)
      /\ hd_error (trace (@Linux.lttng_ust_futex_async nat host_quiet bad_op boot))
        = Some (Sys_futex bad_op)
      /\ trace (@Cygwin.lttng_ust_futex_noasync nat host_quiet bad_op boot)
        = [Compat_futex_async bad_op]
      /\ trace (@Cygwin.lttng_ust_futex_async nat host_quiet bad_op boot)
        = [Compat_futex_async bad_op]
      /\ trace (@Generic.lttng_ust_futex_noasync nat host_quiet bad_op boot)
        = [Compat_futex_noasync bad_op]
      /\ trace (@Generic.lttng_ust_futex_async nat host_quiet bad_op boot)
        = [Compat_futex_async bad_op])
  /\ (answers_with (@Cygwin.lttng_ust_futex_noasync nat host_quiet bad_op boot)
        (0, mk_world 0 1%nat) [Compat_futex_async bad_op]
      /\ answers_with (@Cygwin.lttng_ust_futex_async nat host_quiet bad_op boot)
           (0, mk_world 0 1%nat) [Compat_futex_async bad_op]
      /\ answers_with (@Generic.lttng_ust_futex_noasync nat host_quiet bad_op boot)
           (0, mk_world 0 1%nat) [Compat_futex_noasync bad_op]
      /\ answers_with (@Generic.lttng_ust_futex_async nat host_quiet bad_op boot)
           (0, mk_world 0 1%nat) [Compat_futex_async bad_op])
  /\ (answers_with (@Linux.lttng_ust_futex_noasync nat host_quiet bad_op boot)
        (0, mk_world 0 1%nat) [Sys_futex bad_op]
      /\ answers_with (@Linux.lttng_ust_futex_async nat host_quiet bad_op boot)
           (0, mk_world 0 1%nat) [Sys_futex bad_op]).
Proof.
  apply (unknown_op_policy nat host_quiet bad_op boot).
  - vm_compute. discriminate.
  - vm_compute. discriminate.
Defined.

(** ** The reserved arguments *)

(** C4, as written, fails on FreeBSD: a timed wait with [uaddr2 = 8192]
    and [val3 = 9] ends in one [_umtx_op] call whose five arguments are the
    address, the translated operation, the value, the size of the timeout
    structure and that structure; neither reserved argument is among
    them, and the same call is made when both are 0. *)
Lemma freebsd_drops_reserved_arguments :
  ~ forwards_reserved timed_wait
      (@FreeBSD.lttng_ust_futex_async nat host_quiet timed_wait boot)
  /\ ~ forwards_reserved timed_wait
      (@FreeBSD.lttng_ust_futex_noasync nat host_quiet timed_wait boot)
  /\ trace (@FreeBSD.lttng_ust_futex_async nat host_quiet timed_wait boot)
     = [Umtx_op (mk_umtx_args 4096 UMTX_OP_WAIT_UINT 7 sizeof_umtx_time
          (Some (mk_umtx_time (mk_timespec 1 0) UMTX_ABSTIME CLOCK_MONOTONIC)))]
  /\ @FreeBSD.lttng_ust_futex_async nat host_quiet
       (with_reserved timed_wait 0 0) boot
     = @FreeBSD.lttng_ust_futex_async nat host_quiet timed_wait boot.
Proof.
  assert (Hno : forall o : outcome nat Z,
             trace o = trace (@FreeBSD.lttng_ust_futex_async
                                nat host_quiet timed_wait boot) ->
             ~ forwards_reserved timed_wait o).
  { intros o Ho Hfw. unfold forwards_reserved in Hfw. rewrite Ho in Hfw.
    vm_compute in Hfw. inversion Hfw as [| c l Hc Hl]. discriminate Hc. }
  repeat split; try reflexivity; apply Hno; reflexivity.
Qed.

Section ReservedFacts.
Context {K : Type} `{Host K}.

Lemma forwards_reserved_single (a : futex_args) (c : call) (o : outcome K Z) :
  trace o = [c] -> reserved_of c = Some (uaddr2 a, val3 a) ->
  forwards_reserved a o.
Proof.
  intros Ht Hc. unfold forwards_reserved. rewrite Ht.
  constructor; [exact Hc | constructor].
Qed.

Lemma linux_forwards_reserved (a : futex_args) (w : world K) :
  forwards_reserved a (Linux.lttng_ust_futex_async a w).
Proof.
  unfold forwards_reserved.
  rewrite linux_dispatch; unfold dispatch_by_design; cbn zeta. rewrite linux_futex_outcome; cbn.
  destruct ((to_int (fst (syscall_futex a w)) <? 0)
            && (errno (snd (syscall_futex a w)) =? ENOSYS)); cbn.
  - destruct (extcall_answers (Compat_futex_async a) (snd (syscall_futex a w)))
      as (_ & _ & Ht).
    rewrite Ht. repeat constructor.
  - repeat constructor.
Qed.

(** On FreeBSD the reserved arguments are read nowhere. *)
Lemma freebsd_ignores_reserved (a : futex_args) (u2 v3 : Z) (w : world K) :
  FreeBSD.lttng_ust_futex_async (with_reserved a u2 v3) w
  = FreeBSD.lttng_ust_futex_async a w.
Proof. reflexivity. Qed.

End ReservedFacts.

(** C4, amended.  On Linux, Cygwin and the generic branch every backend
    call an entry point makes (native or fallback) is handed the caller's
    [uaddr2] and [val3] unchanged.  On FreeBSD the two arguments are not
    forwarded: [_umtx_op] has no parameter for them, and the entry points
    behave the same whatever their values. *)
Theorem reserved_arguments_policy :
  forall (K : Type) (H : Host K) (a : futex_args) (w : world K) (u2 v3 : Z),
    (forwards_reserved a (Linux.lttng_ust_futex_noasync a w)
     /\ forwards_reserved a (Linux.lttng_ust_futex_async a w)
     /\ forwards_reserved a (Cygwin.lttng_ust_futex_noasync a w)
     /\ forwards_reserved a (Cygwin.lttng_ust_futex_async a w)
     /\ forwards_reserved a (Generic.lttng_ust_futex_noasync a w)
     /\ forwards_reserved a (Generic.lttng_ust_futex_async a w))
    /\ (FreeBSD.lttng_ust_futex_noasync (with_reserved a u2 v3) w
          = FreeBSD.lttng_ust_futex_noasync a w
        /\ FreeBSD.lttng_ust_futex_async (with_reserved a u2 v3) w
          = FreeBSD.lttng_ust_futex_async a w
        /\ forallb is_umtx (trace (FreeBSD.lttng_ust_futex_async a w)) = true).
Proof.
  intros K H a w u2 v3. split; [| split; [| split]].
  - repeat split; try apply linux_forwards_reserved.
    + apply (forwards_reserved_single a (Compat_futex_async a));
        [apply (extcall_answers (Compat_futex_async a) w) | reflexivity].
    + apply (forwards_reserved_single a (Compat_futex_async a));
        [apply (extcall_answers (Compat_futex_async a) w) | reflexivity].
    + apply (forwards_reserved_single a (Compat_futex_noasync a));
        [apply (extcall_answers (Compat_futex_noasync a) w) | reflexivity].
    + apply (forwards_reserved_single a (Compat_futex_async a));
        [apply (extcall_answers (Compat_futex_async a) w) | reflexivity].
  - apply freebsd_ignores_reserved.
  - apply freebsd_ignores_reserved.
  - destruct (freebsd_trace_shape a w) as [Ht | [u Ht]]; rewrite Ht; reflexivity.
Qed.

(** ** Error pointers *)

Section ErrorPointerFacts.
Import KernelCompat.

Variable bits : Z.
Hypothesis bits_ge_32 : 32 <= bits.

Lemma word_split : 2 ^ bits = 2 * 2 ^ (bits - 1).
Proof.
  replace bits with (Z.succ (bits - 1)) at 1 by lia.
  rewrite Z.pow_succ_r by lia. reflexivity.
Qed.

Lemma half_word_large : 2 ^ 31 <= 2 ^ (bits - 1).
Proof. apply Z.pow_le_mono_r; lia. Qed.

Lemma wrap_signed_unsigned (e : Z) :
  is_long bits e -> wrap_signed bits (wrap_unsigned bits e) = e.
Proof.
  unfold is_long, wrap_signed, wrap_unsigned. intros He.
  pose proof word_split as Hw. pose proof half_word_large as Hh.
  rewrite Zplus_mod_idemp_l.
  rewrite Z.mod_small by lia. lia.
Qed.

Lemma wrap_unsigned_signed (p : Z) :
  is_pointer bits p -> wrap_unsigned bits (wrap_signed bits p) = p.
Proof.
  unfold is_pointer, wrap_signed, wrap_unsigned. intros Hp.
  pose proof word_split as Hw. pose proof half_word_large as Hh.
  rewrite Zminus_mod_idemp_l.
  replace (p + 2 ^ (bits - 1) - 2 ^ (bits - 1)) with p by lia.
  apply Z.mod_small. lia.
Qed.

Lemma wrap_unsigned_idem (z : Z) :
  wrap_unsigned bits (wrap_unsigned bits z) = wrap_unsigned bits z.
Proof.
  unfold wrap_unsigned. apply Z.mod_mod.
  pose proof word_split. pose proof half_word_large. lia.
Qed.

(** [(unsigned long)-MAX_ERRNO] is the top of the address space less 4095. *)
Lemma err_threshold : wrap_unsigned bits (- MAX_ERRNO) = 2 ^ bits - MAX_ERRNO.
Proof.
  unfold wrap_unsigned, MAX_ERRNO.
  pose proof word_split as Hw. pose proof half_word_large as Hh.
  replace (- (4095)) with (2 ^ bits - 4095 + (-1) * 2 ^ bits) by lia.
  rewrite Z_mod_plus_full. apply Z.mod_small. lia.
Qed.

Lemma wrap_unsigned_long (e : Z) :
  is_long bits e ->
  wrap_unsigned bits e = if e <? 0 then e + 2 ^ bits else e.
Proof.
  unfold is_long, wrap_unsigned. intros He.
  pose proof word_split as Hw. pose proof half_word_large as Hh.
  destruct (Z.ltb_spec e 0) as [Hneg | Hpos].
  - replace e with (e + 2 ^ bits + (-1) * 2 ^ bits) at 1 by lia.
    rewrite Z_mod_plus_full. apply Z.mod_small. lia.
  - apply Z.mod_small. lia.
Qed.

Lemma is_err_value_test (unlikely : Z -> Z) (x : Z) :
  is_branch_hint unlikely ->
  (IS_ERR_VALUE bits unlikely x <> 0 <-> x >= wrap_unsigned bits (- MAX_ERRNO)).
Proof.
  intros [H0 H1]. unfold IS_ERR_VALUE.
  destruct (Z.geb_spec x (wrap_unsigned bits (- MAX_ERRNO))) as [Hge | Hlt].
  - rewrite H1. split; [lia | discriminate].
  - rewrite H0. split; [congruence | lia].
Qed.

End ErrorPointerFacts.

(** C10.  With [long], [unsigned long] and [void *] of one width (at least
    32 bits, as on ILP32 and LP64) and [unlikely] a branch hint that hands
    back its 0 or 1:
    [PTR_ERR (ERR_PTR e) = e] for every [long] [e];
    [ERR_PTR (PTR_ERR p) = p] for every pointer [p];
    [IS_ERR (ERR_PTR e)] is non-zero exactly when [e], converted to
    [unsigned long], is at least [(unsigned long)-MAX_ERRNO], with
    [MAX_ERRNO = 4095]; that is, exactly when [-4095 <= e <= -1]. *)
Theorem err_ptr_round_trip :
  forall (long_bits ptr_bits : Z) (unlikely : Z -> Z) (e p : Z),
    32 <= long_bits ->
    ptr_bits = long_bits ->
    KernelCompat.is_branch_hint unlikely ->
    KernelCompat.is_long long_bits e ->
    KernelCompat.is_pointer ptr_bits p ->
    KernelCompat.PTR_ERR long_bits (KernelCompat.ERR_PTR ptr_bits e) = e
    /\ KernelCompat.ERR_PTR ptr_bits (KernelCompat.PTR_ERR long_bits p) = p
    /\ (KernelCompat.IS_ERR long_bits unlikely (KernelCompat.ERR_PTR ptr_bits e)
          <> 0
        <-> wrap_unsigned long_bits e
            >= wrap_unsigned long_bits (- KernelCompat.MAX_ERRNO))
    /\ (KernelCompat.IS_ERR long_bits unlikely (KernelCompat.ERR_PTR ptr_bits e)
          <> 0
        <-> - KernelCompat.MAX_ERRNO <= e <= -1)
    /\ KernelCompat.MAX_ERRNO = 4095.
Proof.
  intros bits ptr_bits unlikely e p Hbits Hsame Hhint He Hp. subst ptr_bits.
  unfold KernelCompat.PTR_ERR, KernelCompat.ERR_PTR, KernelCompat.IS_ERR.
  split; [now apply wrap_signed_unsigned |].
  split; [now apply wrap_unsigned_signed |].
  rewrite (wrap_unsigned_idem bits Hbits).
  pose proof (is_err_value_test bits unlikely (wrap_unsigned bits e) Hhint)
    as Htest.
  split; [exact Htest |].
  split; [| reflexivity].
  rewrite Htest, (err_threshold bits Hbits), (wrap_unsigned_long bits Hbits e He).
  pose proof (word_split bits Hbits) as Hw.
  pose proof (half_word_large bits Hbits) as Hh.
  unfold KernelCompat.is_long, KernelCompat.MAX_ERRNO in *.
  destruct (Z.ltb_spec e 0); lia.
Qed.

(** On LP64 with GCC's hint: [-ENOMEM] survives the round trip and is an
    error pointer, and the pointer with all bits set survives it too. *)
Lemma err_ptr_round_trip_witness :
  KernelCompat.PTR_ERR 64 (KernelCompat.ERR_PTR 64 (-12)) = -12
  /\ KernelCompat.ERR_PTR 64 (KernelCompat.PTR_ERR 64 (2 ^ 64 - 1)) = 2 ^ 64 - 1
  /\ (KernelCompat.IS_ERR 64 KernelCompat.builtin_unlikely
        (KernelCompat.ERR_PTR 64 (-12)) <> 0
      <-> wrap_unsigned 64 (-12)
          >= wrap_unsigned 64 (- KernelCompat.MAX_ERRNO))
  /\ (KernelCompat.IS_ERR 64 KernelCompat.builtin_unlikely
        (KernelCompat.ERR_PTR 64 (-12)) <> 0
      <-> - KernelCompat.MAX_ERRNO <= -12 <= -1)
  /\ KernelCompat.MAX_ERRNO = 4095.
Proof.
  apply (err_ptr_round_trip 64 64 KernelCompat.builtin_unlikely
           (-12) (2 ^ 64 - 1)).
  - lia.
  - reflexivity.
  - split; reflexivity.
  - unfold KernelCompat.is_long. lia.
  - unfold KernelCompat.is_pointer. lia.
Defined.

(** * More of the futex header *)

(** X1.  Whatever the host answers, a Linux entry point makes the futex
    system call first and then at most one call, to
    [lttng_ust_compat_futex_async]; it never calls
    [lttng_ust_compat_futex_noasync] and never [_umtx_op]. *)
Theorem linux_call_discipline :
  forall (K : Type) (H : Host K) (a : futex_args) (w : world K),
    (trace (Linux.lttng_ust_futex_noasync a w) = [Sys_futex a]
     \/ trace (Linux.lttng_ust_futex_noasync a w)
        = [Sys_futex a; Compat_futex_async a])
    /\ (trace (Linux.lttng_ust_futex_async a w) = [Sys_futex a]
        \/ trace (Linux.lttng_ust_futex_async a w)
           = [Sys_futex a; Compat_futex_async a])
    /\ existsb is_noasync_fallback
         (trace (Linux.lttng_ust_futex_noasync a w)) = false
    /\ existsb is_umtx (trace (Linux.lttng_ust_futex_noasync a w)) = false.
Proof.
  intros K H a w.
  change (Linux.lttng_ust_futex_noasync a w)
    with (Linux.lttng_ust_futex_async a w).
  assert (Hshape : trace (Linux.lttng_ust_futex_async a w) = [Sys_futex a]
                   \/ trace (Linux.lttng_ust_futex_async a w)
                      = [Sys_futex a; Compat_futex_async a]).
  { rewrite linux_dispatch; unfold dispatch_by_design; cbn zeta.
    rewrite linux_futex_outcome; cbn.
    destruct ((to_int (fst (syscall_futex a w)) <? 0)
              && (errno (snd (syscall_futex a w)) =? ENOSYS)); cbn.
    - right.
      destruct (extcall_answers (Compat_futex_async a)
                  (snd (syscall_futex a w))) as (_ & _ & Ht).
      rewrite Ht. reflexivity.
    - left. reflexivity. }
  repeat split; try exact Hshape;
    destruct Hshape as [Ht | Ht]; rewrite Ht; reflexivity.
Qed.

(** X2.  On FreeBSD, a WAIT or WAKE is one [_umtx_op] call whose value and
    world (so its [errno]) come back untouched.  The call is made on the
    caller's address, with [val] converted to a 32-bit unsigned number and
    the operation translated; a timeout structure (and its size) is passed
    only for a WAIT that has a timeout, so a WAKE ignores its [timeout]
    argument. *)
Theorem freebsd_request_translation :
  forall (K : Type) (H : Host K) (a : futex_args) (w : world K),
    op a = FUTEX_WAIT \/ op a = FUTEX_WAKE ->
    exists u : umtx_args,
      answers_with (FreeBSD.lttng_ust_futex_async a w)
                   (_umtx_op u w) [Umtx_op u]
      /\ umtx_obj u = uaddr a
      /\ umtx_val u = val a mod 2 ^ 32
      /\ umtx_op u
         = (if op a =? FUTEX_WAIT then UMTX_OP_WAIT_UINT else UMTX_OP_WAKE)
      /\ umtx_uaddr2 u
         = (if op a =? FUTEX_WAIT
            then option_map
                   (fun ts => mk_umtx_time ts UMTX_ABSTIME CLOCK_MONOTONIC)
                   (timeout a)
            else None)
      /\ umtx_uaddr u
         = (match umtx_uaddr2 u with
            | Some _ => sizeof_umtx_time
            | None => NULL
            end).
Proof.
  intros K H a w [Hop | Hop].
  - eexists. rewrite (freebsd_wait_request a w Hop).
    split; [apply (extcall_answers (Umtx_op _) w) |].
    rewrite Hop. cbn. destruct (timeout a); repeat split; reflexivity.
  - eexists. rewrite (freebsd_wake_request a w Hop).
    split; [apply (extcall_answers (Umtx_op _) w) |].
    rewrite Hop. cbn. repeat split; reflexivity.
Qed.

(** A timed WAKE on FreeBSD: the timeout is not passed on. *)
Lemma freebsd_request_translation_witness :
  exists u : umtx_args,
    answers_with
      (@FreeBSD.lttng_ust_futex_async nat host_quiet
         (mk_futex_args 4096 FUTEX_WAKE (-1) (Some (mk_timespec 1 0)) 0 0) boot)
      (@_umtx_op nat host_quiet u boot) [Umtx_op u]
    /\ umtx_obj u = 4096
    /\ umtx_val u = (-1) mod 2 ^ 32
    /\ umtx_op u = UMTX_OP_WAKE
    /\ umtx_uaddr2 u = None
    /\ umtx_uaddr u
       = (match umtx_uaddr2 u with
          | Some _ => sizeof_umtx_time
          | None => NULL
          end).
Proof.
  apply (freebsd_request_translation nat host_quiet
           (mk_futex_args 4096 FUTEX_WAKE (-1) (Some (mk_timespec 1 0)) 0 0)
           boot).
  right. reflexivity.
Defined.

(** * More of [share/kernelcompat.h] *)

(** ** Counters *)

Section AtomicFacts.
Import Atomic.

Lemma dec_and_test_countdown (n : nat) :
  dec_and_test_times (S n) (mk_atomic (Z.of_nat (S n)))
  = Some (repeat 0 n ++ [1], mk_atomic 0).
Proof.
  induction n as [| n IH].
  - reflexivity.
  - remember (S n) as m eqn:Hm.
    cbn [dec_and_test_times]. unfold atomic_dec_and_test.
    cbn [counter].
    assert (Hmin : (Z.of_nat (S m) =? INT_MIN) = false).
    { apply Z.eqb_neq. unfold INT_MIN. lia. }
    rewrite Hmin.
    replace (Z.of_nat (S m) - 1) with (Z.of_nat m) by lia.
    assert (Hnz : (Z.of_nat m =? 0) = false) by (apply Z.eqb_neq; lia).
    rewrite Hnz, IH, Hm. reflexivity.
Qed.

End AtomicFacts.

(** X3.  A counter set to [n >= 1] with [atomic_set] reaches zero at the
    [n]-th [atomic_dec_and_test] and not before: the first [n - 1] calls
    return 0, the [n]-th returns 1, no call overflows, and the counter
    reads 0 at the end. *)
Theorem atomic_countdown_hits_zero_once :
  forall (p : Atomic.atomic_t) (n : nat),
    (1 <= n)%nat ->
    exists p' : Atomic.atomic_t,
      Atomic.dec_and_test_times n (Atomic.atomic_set p (Z.of_nat n))
      = Some (repeat 0 (n - 1) ++ [1], p')
      /\ Atomic.atomic_read p' = 0.
Proof.
  intros p n Hn. destruct n as [| n]; [lia |].
  exists (Atomic.mk_atomic 0). split; [| reflexivity].
  unfold Atomic.atomic_set.
  replace (S n - 1)%nat with n by lia.
  apply dec_and_test_countdown.
Qed.

Lemma atomic_countdown_witness :
  exists p' : Atomic.atomic_t,
    Atomic.dec_and_test_times 3
      (Atomic.atomic_set (Atomic.mk_atomic 77) 3)
    = Some ([0; 0; 1], p')
    /\ Atomic.atomic_read p' = 0.
Proof.
  apply (atomic_countdown_hits_zero_once (Atomic.mk_atomic 77) 3).
  lia.
Defined.

(** X4.  [atomic_inc] followed by [atomic_dec_and_test] gives the counter
    back as it was, and the test reports zero exactly when the counter was
    zero to begin with; neither step overflows below [INT_MAX]. *)
Theorem atomic_inc_then_dec_and_test :
  forall p : Atomic.atomic_t,
    Atomic.INT_MIN <= Atomic.atomic_read p < Atomic.INT_MAX ->
    exists p1 : Atomic.atomic_t,
      Atomic.atomic_inc p = Some p1
      /\ Atomic.atomic_read p1 = Atomic.atomic_read p + 1
      /\ Atomic.atomic_dec_and_test p1
         = Some ((if Atomic.atomic_read p =? 0 then 1 else 0), p).
Proof.
  intros [c] Hc. unfold Atomic.atomic_read in *. cbn [Atomic.counter] in *.
  exists (Atomic.mk_atomic (c + 1)).
  unfold Atomic.atomic_inc, Atomic.atomic_dec_and_test. cbn [Atomic.counter].
  assert (Hmax : (c =? Atomic.INT_MAX) = false) by (apply Z.eqb_neq; lia).
  assert (Hmin : (c + 1 =? Atomic.INT_MIN) = false) by (apply Z.eqb_neq; lia).
  rewrite Hmax, Hmin.
  replace (c + 1 - 1) with c by lia.
  repeat split; reflexivity.
Qed.

Lemma atomic_inc_then_dec_witness :
  exists p1 : Atomic.atomic_t,
    Atomic.atomic_inc (Atomic.mk_atomic 0) = Some p1
    /\ Atomic.atomic_read p1 = Atomic.atomic_read (Atomic.mk_atomic 0) + 1
    /\ Atomic.atomic_dec_and_test p1
       = Some ((if Atomic.atomic_read (Atomic.mk_atomic 0) =? 0 then 1 else 0),
               Atomic.mk_atomic 0).
Proof.
  apply (atomic_inc_then_dec_and_test (Atomic.mk_atomic 0)).
  unfold Atomic.atomic_read, Atomic.INT_MIN, Atomic.INT_MAX. cbn. lia.
Defined.

(** ** [fls] and [get_count_order] *)

Section BitFacts.
Import Bits.

Lemma to_int_small (z : Z) : - 2 ^ 31 <= z < 2 ^ 31 -> to_int z = z.
Proof.
  intros Hz. unfold to_int, wrap_signed.
  change (2 ^ (32 - 1)) with (2 ^ 31). change (2 ^ 32) with (2 * 2 ^ 31).
  rewrite Z.mod_small by lia. lia.
Qed.

Lemma to_uint_small (z : Z) : 0 <= z < 2 ^ 32 -> to_uint z = z.
Proof. intros Hz. apply Z.mod_small. exact Hz. Qed.

Lemma to_uint_to_int (c : Z) : 0 <= c < 2 ^ 32 -> to_uint (to_int c) = c.
Proof.
  intros Hc. unfold to_uint, to_int, wrap_signed, wrap_unsigned.
  change (2 ^ (32 - 1)) with 2147483648 in *.
  change (2 ^ 32) with 4294967296 in *.
  rewrite Zminus_mod_idemp_l.
  replace (c + 2147483648 - 2147483648) with c by lia.
  apply Z.mod_small. exact Hc.
Qed.

Lemma to_uint_int_nonzero (x : Z) :
  - 2 ^ 31 <= x < 2 ^ 31 -> x <> 0 -> 0 < to_uint x < 2 ^ 32.
Proof.
  intros Hx Hnz. unfold to_uint, wrap_unsigned.
  change (2 ^ 31) with 2147483648 in *.
  change (2 ^ 32) with 4294967296 in *.
  destruct (Z_lt_le_dec x 0) as [Hneg | Hpos].
  - replace x with (x + 4294967296 + (-1) * 4294967296) by lia.
    rewrite Z_mod_plus_full, Z.mod_small; lia.
  - rewrite Z.mod_small; lia.
Qed.

(** [fls] on a bit pattern that is not zero. *)
Lemma fls_of_pattern (x : Z) :
  0 < to_uint x < 2 ^ 32 -> fls x = Z.log2 (to_uint x) + 1.
Proof.
  intros Hu. unfold fls, bsrl.
  assert (Hnz : (to_uint x =? 0) = false) by (apply Z.eqb_neq; lia).
  rewrite Hnz.
  assert (Hlog : 0 <= Z.log2 (to_uint x) < 32).
  { split; [apply Z.log2_nonneg |]. apply Z.log2_lt_pow2; lia. }
  apply to_int_small. change (2 ^ 31) with 2147483648. lia.
Qed.

(** [c & (c - 1)] is zero exactly for the powers of two. *)
Lemma land_pred_zero_iff (c : Z) :
  1 <= c -> (Z.land c (c - 1) = 0 <-> c = 2 ^ Z.log2 c).
Proof.
  intros Hc.
  destruct (Z.log2_spec c ltac:(lia)) as [Hlo Hhi].
  pose proof (Z.log2_nonneg c) as Hk.
  split.
  - intros Hland.
    destruct (Z.eq_dec c (2 ^ Z.log2 c)) as [Heq | Hne]; [exact Heq |].
    exfalso.
    assert (Hlog : Z.log2 (c - 1) = Z.log2 c).
    { apply Z.log2_unique; [exact Hk | lia]. }
    assert (Hbit : Z.testbit (Z.land c (c - 1)) (Z.log2 c) = true).
    { rewrite Z.land_spec. apply andb_true_iff. split.
      - apply Z.bit_log2. lia.
      - rewrite <- Hlog. apply Z.bit_log2. lia. }
    rewrite Hland, Z.bits_0 in Hbit. discriminate Hbit.
  - intros Heq. rewrite Heq at 1 2.
    replace (2 ^ Z.log2 c - 1) with (Z.ones (Z.log2 c))
      by (rewrite Z.ones_equiv; lia).
    rewrite Z.land_ones by exact Hk.
    apply Z.mod_same. lia.
Qed.

End BitFacts.

(** X5.  [fls] is the 1-based position of the most significant set bit of
    its 32-bit argument: [fls 0 = 0], and for [x <> 0] the bit pattern of
    [x] lies between [2 ^ (fls x - 1)] and [2 ^ fls x], with [fls x]
    between 1 and 32. *)
Theorem fls_brackets_its_argument :
  forall x : Z,
    - 2 ^ 31 <= x < 2 ^ 31 ->
    x <> 0 ->
    Bits.fls 0 = 0
    /\ 1 <= Bits.fls x <= 32
    /\ 2 ^ (Bits.fls x - 1) <= Bits.to_uint x < 2 ^ Bits.fls x.
Proof.
  intros x Hx Hnz.
  split; [reflexivity |].
  pose proof (to_uint_int_nonzero x Hx Hnz) as Hu.
  rewrite (fls_of_pattern x Hu).
  destruct (Z.log2_spec (Bits.to_uint x) ltac:(lia)) as [Hlo Hhi].
  assert (Hlog : 0 <= Z.log2 (Bits.to_uint x) < 32).
  { split; [apply Z.log2_nonneg |]. apply Z.log2_lt_pow2; lia. }
  replace (Z.log2 (Bits.to_uint x) + 1 - 1) with (Z.log2 (Bits.to_uint x))
    by lia.
  replace (Z.log2 (Bits.to_uint x) + 1) with (Z.succ (Z.log2 (Bits.to_uint x)))
    by lia.
  repeat split; try lia; assumption.
Qed.

Lemma fls_witness :
  Bits.fls 0 = 0
  /\ 1 <= Bits.fls (-1) <= 32
  /\ 2 ^ (Bits.fls (-1) - 1) <= Bits.to_uint (-1) < 2 ^ Bits.fls (-1).
Proof.
  apply (fls_brackets_its_argument (-1)).
  - lia.
  - discriminate.
Defined.

(** X6.  [get_count_order] is the order of the smallest power of two that
    holds [count]: it returns -1 for 0 and the rounded-up base-2 logarithm
    otherwise, so that [count <= 2 ^ order < 2 * count]. *)
Theorem get_count_order_rounds_up :
  forall count : Z,
    0 <= count < 2 ^ 32 ->
    Bits.get_count_order count
    = (if count =? 0 then -1 else Z.log2_up count)
    /\ (count = 0
        \/ count <= 2 ^ Bits.get_count_order count < 2 * count).
Proof.
  intros count Hc.
  destruct (Z.eq_dec count 0) as [Hz | Hnz].
  { subst count. split; [reflexivity | left; reflexivity]. }
  assert (Hpos : 1 <= count) by lia.
  assert (Hneq : (count =? 0) = false) by (apply Z.eqb_neq; exact Hnz).
  rewrite Hneq.
  destruct (Z.log2_spec count ltac:(lia)) as [Hlo Hhi].
  assert (Hlog : 0 <= Z.log2 count < 32).
  { split; [apply Z.log2_nonneg |]. apply Z.log2_lt_pow2; lia. }
  assert (Hord : Bits.get_count_order count
                 = if Z.land count (count - 1) =? 0
                   then Z.log2 count else Z.log2 count + 1).
  { unfold Bits.get_count_order.
    rewrite (fls_of_pattern (to_int count))
      by (rewrite (to_uint_to_int count Hc); lia).
    rewrite (to_uint_to_int count Hc).
    rewrite (to_uint_small (count - 1)) by lia.
    replace (Z.log2 count + 1 - 1) with (Z.log2 count) by lia.
    rewrite (to_int_small (Z.log2 count))
      by (change (2 ^ 31) with 2147483648; lia).
    destruct (Z.land count (count - 1) =? 0); [reflexivity |].
    apply to_int_small. change (2 ^ 31) with 2147483648. lia. }
  rewrite Hord.
  rewrite Z.pow_succ_r in Hhi by lia.
  destruct (Z.eqb_spec (Z.land count (count - 1)) 0) as [Hland | Hland].
  - apply (land_pred_zero_iff count Hpos) in Hland.
    split.
    + rewrite Hland at 2. rewrite Z.log2_up_pow2 by lia. reflexivity.
    + right. lia.
  - assert (Hne : count <> 2 ^ Z.log2 count).
    { intros Heq. apply Hland. now apply (land_pred_zero_iff count Hpos). }
    assert (Hpow : 2 ^ (Z.log2 count + 1) = 2 * 2 ^ Z.log2 count).
    { replace (Z.log2 count + 1) with (Z.succ (Z.log2 count)) by lia.
      apply Z.pow_succ_r. lia. }
    split.
    + symmetry. apply Z.log2_up_unique; [lia |].
      replace (Z.pred (Z.log2 count + 1)) with (Z.log2 count) by lia.
      lia.
    + right. lia.
Qed.

Lemma get_count_order_witness :
  Bits.get_count_order 4097 = (if 4097 =? 0 then -1 else Z.log2_up 4097)
  /\ (4097 = 0 \/ 4097 <= 2 ^ Bits.get_count_order 4097 < 2 * 4097).
Proof.
  apply (get_count_order_rounds_up 4097). lia.
Defined.

(** ** [ALIGN] *)

Section AlignFacts.
Import Bits.

Variables bits k : Z.
Hypothesis k_range : 0 <= k < bits.

Lemma pow2_k_small : 0 < 2 ^ k < 2 ^ bits.
Proof.
  split.
  - apply Z.pow_pos_nonneg; lia.
  - apply Z.pow_lt_mono_r; lia.
Qed.

(** Clearing the low [k] bits. *)
Lemma land_lnot_ones (y : Z) :
  Z.land y (Z.lnot (2 ^ k - 1)) = y - y mod 2 ^ k.
Proof.
  replace (2 ^ k - 1) with (Z.ones k) by (rewrite Z.ones_equiv; lia).
  rewrite <- Z.ldiff_land, Z.ldiff_ones_r by lia.
  rewrite Z.shiftl_mul_pow2, Z.shiftr_div_pow2 by lia.
  pose proof pow2_k_small as Hp.
  pose proof (Z.div_mod y (2 ^ k) ltac:(lia)) as Hdm.
  lia.
Qed.

(** Clearing the low [k] bits of a [bits]-wide value, with the mask
    complemented at that width. *)
Lemma land_lnot_mask (y : Z) :
  0 <= y < 2 ^ bits ->
  Z.land y (wrap_unsigned bits (Z.lnot (2 ^ k - 1))) = y - y mod 2 ^ k.
Proof.
  intros Hy. unfold wrap_unsigned.
  rewrite <- (Z.land_ones _ bits) by lia.
  rewrite (Z.land_comm (Z.lnot (2 ^ k - 1))), Z.land_assoc.
  rewrite (Z.land_ones y bits) by lia.
  rewrite (Z.mod_small y) by exact Hy.
  apply land_lnot_ones.
Qed.

(** [ALIGN] at a power of two, in arithmetic. *)
Lemma ALIGN_pow2 (x : Z) :
  ALIGN bits x (2 ^ k)
  = if promoted_to_int bits
    then x + (2 ^ k - 1) - (x + (2 ^ k - 1)) mod 2 ^ k
    else (x + (2 ^ k - 1)) mod 2 ^ bits
         - ((x + (2 ^ k - 1)) mod 2 ^ bits) mod 2 ^ k.
Proof.
  pose proof pow2_k_small as Hp.
  unfold ALIGN, __ALIGN_MASK, wrap_unsigned.
  destruct (promoted_to_int bits).
  - rewrite (Z.mod_small (2 ^ k)) by lia.
    apply land_lnot_ones.
  - rewrite (Z.mod_small (2 ^ k)) by lia.
    rewrite (Z.mod_small (2 ^ k - 1)) by lia.
    apply land_lnot_mask.
    apply Z.mod_pos_bound. lia.
Qed.

End AlignFacts.

(** X7.  For an alignment [2 ^ k] that fits the type, and an [x] that is
    not within [2 ^ k] of the top of the type, [ALIGN x (2 ^ k)] is the
    least multiple of [2 ^ k] that is not below [x]; an [x] that is
    already a multiple comes back unchanged. *)
Theorem ALIGN_rounds_up_to_multiple :
  forall bits k x : Z,
    0 <= k < bits ->
    0 <= x ->
    x + 2 ^ k - 1 < 2 ^ bits ->
    (Bits.ALIGN bits x (2 ^ k)) mod 2 ^ k = 0
    /\ x <= Bits.ALIGN bits x (2 ^ k) < x + 2 ^ k
    /\ (forall m : Z, m mod 2 ^ k = 0 -> x <= m ->
                      Bits.ALIGN bits x (2 ^ k) <= m)
    /\ (x mod 2 ^ k = 0 -> Bits.ALIGN bits x (2 ^ k) = x).
Proof.
  intros bits k x Hk Hx Hfit.
  pose proof (pow2_k_small bits k Hk) as Hp.
  rewrite (ALIGN_pow2 bits k Hk x).
  rewrite (Z.mod_small (x + (2 ^ k - 1)) (2 ^ bits)) by lia.
  replace (if Bits.promoted_to_int bits
           then x + (2 ^ k - 1) - (x + (2 ^ k - 1)) mod 2 ^ k
           else x + (2 ^ k - 1) - (x + (2 ^ k - 1)) mod 2 ^ k)
    with (x + (2 ^ k - 1) - (x + (2 ^ k - 1)) mod 2 ^ k)
    by (destruct (Bits.promoted_to_int bits); reflexivity).
  set (a := 2 ^ k) in *.
  pose proof (Z.div_mod (x + (a - 1)) a ltac:(lia)) as Hdm.
  pose proof (Z.mod_pos_bound (x + (a - 1)) a ltac:(lia)) as Hr.
  set (q := (x + (a - 1)) / a) in *.
  set (r := (x + (a - 1)) mod a) in *.
  assert (Hval : x + (a - 1) - r = a * q) by lia.
  rewrite Hval.
  assert (Hmul : (a * q) mod a = 0).
  { rewrite Z.mul_comm. apply Z.mod_mul. lia. }
  split; [exact Hmul |].
  split; [lia |].
  split.
  - intros m Hm Hxm.
    apply Z.mod_divide in Hm; [| lia].
    destruct Hm as [j Hj]. subst m.
    assert (q <= j); [| nia].
    destruct (Z_lt_le_dec j q) as [Hlt | Hge]; [| exact Hge].
    exfalso. assert (j + 1 <= q) by lia. nia.
  - intros Hxa.
    apply Z.mod_divide in Hxa; [| lia].
    destruct Hxa as [j Hj].
    assert (q = j); [| nia].
    assert (j <= q /\ q < j + 1); [split; nia | lia].
Qed.

Lemma ALIGN_witness :
  (Bits.ALIGN 64 4097 (2 ^ 12)) mod 2 ^ 12 = 0
  /\ 4097 <= Bits.ALIGN 64 4097 (2 ^ 12) < 4097 + 2 ^ 12
  /\ (forall m : Z, m mod 2 ^ 12 = 0 -> 4097 <= m ->
                    Bits.ALIGN 64 4097 (2 ^ 12) <= m)
  /\ (4097 mod 2 ^ 12 = 0 -> Bits.ALIGN 64 4097 (2 ^ 12) = 4097).
Proof.
  apply (ALIGN_rounds_up_to_multiple 64 12 4097); lia.
Defined.

(** X8.  For an [x] of the type that lies above the last multiple of
    [2 ^ k] the type can hold: at [unsigned int] and wider types the sum
    [x + mask] overflows and [ALIGN x (2 ^ k)] wraps to 0, which is below
    [x]; at [unsigned char] and [unsigned short] the operands are promoted
    to [int], nothing wraps, and [ALIGN x (2 ^ k)] is [2 ^ bits], one more
    than the largest value of the type. *)
Theorem ALIGN_past_last_multiple :
  forall bits k x : Z,
    0 <= k < bits ->
    2 ^ bits - 2 ^ k < x < 2 ^ bits ->
    (32 <= bits -> Bits.ALIGN bits x (2 ^ k) = 0)
    /\ (bits <= 16 -> Bits.ALIGN bits x (2 ^ k) = 2 ^ bits).
Proof.
  intros bits k x Hk Hx.
  pose proof (pow2_k_small bits k Hk) as Hp.
  rewrite (ALIGN_pow2 bits k Hk x).
  unfold Bits.promoted_to_int.
  split; intros Hbits.
  - destruct (Z.ltb_spec bits 32) as [Hlt | Hge]; [lia |].
    replace (x + (2 ^ k - 1))
      with (x + 2 ^ k - 1 - 2 ^ bits + 1 * 2 ^ bits) by lia.
    rewrite Z_mod_plus_full.
    rewrite (Z.mod_small (x + 2 ^ k - 1 - 2 ^ bits)) by lia.
    rewrite (Z.mod_small (x + 2 ^ k - 1 - 2 ^ bits)) by lia.
    lia.
  - destruct (Z.ltb_spec bits 32) as [Hlt | Hge]; [| lia].
    assert (Hsplit : 2 ^ bits = 2 ^ (bits - k) * 2 ^ k).
    { rewrite <- Z.pow_add_r by lia. f_equal. lia. }
    replace (x + (2 ^ k - 1))
      with (x + 2 ^ k - 1 - 2 ^ bits + 2 ^ (bits - k) * 2 ^ k) by lia.
    rewrite Z_mod_plus_full.
    rewrite (Z.mod_small (x + 2 ^ k - 1 - 2 ^ bits)) by lia.
    lia.
Qed.

(** The last byte of a 64-bit address space aligns to 0; the [unsigned
    char] 255 aligns, at 16, to the [int] 256. *)
Lemma ALIGN_past_last_multiple_witness :
  Bits.ALIGN 64 (2 ^ 64 - 1) (2 ^ 12) = 0
  /\ Bits.ALIGN 8 255 (2 ^ 4) = 2 ^ 8.
Proof.
  split.
  - apply (ALIGN_past_last_multiple 64 12 (2 ^ 64 - 1)); lia.
  - apply (ALIGN_past_last_multiple 8 4 255); lia.
Defined.

(** ** [min_t] and [max_t] *)

(** X9.  [min_t] and [max_t] compare after converting both operands to the
    named type.  At [unsigned int], a negative [int] operand becomes a
    large number: it loses a [min_t] against any non-negative operand and
    wins the [max_t], whereas at [int] it is the minimum. *)
Theorem min_t_max_t_convert_first :
  forall x y : Z,
    - 2 ^ 31 <= x < 0 ->
    0 <= y < 2 ^ 31 ->
    MinMax.min_t Bits.to_uint x y = y
    /\ MinMax.max_t Bits.to_uint x y = x + 2 ^ 32
    /\ MinMax.min_t to_int x y = x
    /\ MinMax.max_t to_int x y = y.
Proof.
  intros x y Hx Hy.
  assert (Hux : Bits.to_uint x = x + 2 ^ 32).
  { unfold Bits.to_uint, wrap_unsigned.
    change (2 ^ 31) with 2147483648 in *.
    change (2 ^ 32) with 4294967296 in *.
    replace x with (x + 4294967296 + (-1) * 4294967296) at 1 by lia.
    rewrite Z_mod_plus_full. apply Z.mod_small. lia. }
  assert (Huy : Bits.to_uint y = y).
  { apply to_uint_small. change (2 ^ 31) with 2147483648 in *.
    change (2 ^ 32) with 4294967296. lia. }
  assert (Hix : to_int x = x) by (apply to_int_small; lia).
  assert (Hiy : to_int y = y) by (apply to_int_small; lia).
  unfold MinMax.min_t, MinMax.max_t. cbn zeta.
  rewrite Hux, Huy, Hix, Hiy.
  change (2 ^ 31) with 2147483648 in *.
  change (2 ^ 32) with 4294967296 in *.
  repeat split.
  - destruct (Z.ltb_spec (x + 4294967296) y); [lia | reflexivity].
  - destruct (Z.gtb_spec (x + 4294967296) y); [reflexivity | lia].
  - destruct (Z.ltb_spec x y); [reflexivity | lia].
  - destruct (Z.gtb_spec x y); [lia | reflexivity].
Qed.

Lemma min_t_max_t_witness :
  MinMax.min_t Bits.to_uint (-1) 1 = 1
  /\ MinMax.max_t Bits.to_uint (-1) 1 = -1 + 2 ^ 32
  /\ MinMax.min_t to_int (-1) 1 = -1
  /\ MinMax.max_t to_int (-1) 1 = 1.
Proof.
  apply (min_t_max_t_convert_first (-1) 1); lia.
Defined.

(** ** [hweight32] *)

Section HweightFacts.
Import Bits.

Lemma concat_testbit (k lo hi n : Z) :
  0 <= k -> 0 <= lo < 2 ^ k -> 0 <= n ->
  Z.testbit (lo + 2 ^ k * hi) n
  = if n <? k then Z.testbit lo n else Z.testbit hi (n - k).
Proof.
  intros Hk Hlo Hn.
  assert (Hmod : (lo + 2 ^ k * hi) mod 2 ^ k = lo).
  { rewrite Z.mul_comm, Z_mod_plus_full. apply Z.mod_small. exact Hlo. }
  assert (Hdiv : (lo + 2 ^ k * hi) / 2 ^ k = hi).
  { rewrite Z.mul_comm, Z_div_plus_full by lia.
    rewrite Z.div_small by exact Hlo. lia. }
  destruct (Z.ltb_spec n k) as [Hlt | Hge].
  - rewrite <- Hmod at 2. symmetry. apply Z.mod_pow2_bits_low. exact Hlt.
  - rewrite <- Hdiv at 2. rewrite Z.div_pow2_bits by lia.
    f_equal. lia.
Qed.

Lemma land_below (k x m : Z) :
  0 <= k -> 0 <= x -> 0 <= m < 2 ^ k -> 0 <= Z.land x m < 2 ^ k.
Proof.
  intros Hk Hx Hm.
  assert (Hnn : 0 <= Z.land x m) by (apply Z.land_nonneg; lia).
  split; [exact Hnn |].
  destruct (Z.eq_dec (Z.land x m) 0) as [Hz | Hnz].
  - rewrite Hz. apply Z.pow_pos_nonneg; lia.
  - apply Z.log2_lt_pow2; [lia |].
    pose proof (Z.log2_land x m Hx ltac:(lia)) as Hl.
    assert (0 < m).
    { destruct (Z.eq_dec m 0) as [Hm0 | Hm0]; [| lia].
      subst m. rewrite Z.land_0_r in Hnz. lia. }
    assert (Z.log2 m < k) by (apply Z.log2_lt_pow2; lia).
    lia.
Qed.

Lemma small_bits_high (j m n : Z) :
  0 <= j -> 0 <= m < 2 ^ j -> j <= n -> Z.testbit m n = false.
Proof.
  intros Hj Hm Hn.
  rewrite <- (Z.mod_small m (2 ^ j)) by exact Hm.
  apply Z.mod_pow2_bits_high. lia.
Qed.

Lemma land_shiftr_concat (k s lo hi mlo mhi : Z) :
  0 <= s <= k -> 0 <= lo < 2 ^ k -> 0 <= hi ->
  0 <= mlo < 2 ^ (k - s) -> 0 <= mhi ->
  Z.land (Z.shiftr (lo + 2 ^ k * hi) s) (mlo + 2 ^ k * mhi)
  = Z.land (Z.shiftr lo s) mlo + 2 ^ k * Z.land (Z.shiftr hi s) mhi.
Proof.
  intros Hs Hlo Hhi Hmlo Hmhi.
  assert (Hmk : 0 <= mlo < 2 ^ k).
  { split; [lia |]. apply Z.lt_le_trans with (2 ^ (k - s)); [lia |].
    apply Z.pow_le_mono_r; lia. }
  assert (Hsl : 0 <= Z.shiftr lo s) by (apply Z.shiftr_nonneg; lia).
  pose proof (land_below k (Z.shiftr lo s) mlo ltac:(lia) Hsl Hmk) as Hb.
  apply Z.bits_inj'. intros n Hn.
  rewrite Z.land_spec, Z.shiftr_spec by exact Hn.
  rewrite (concat_testbit k lo hi (n + s)) by lia.
  rewrite (concat_testbit k mlo mhi n) by lia.
  rewrite (concat_testbit k _ _ n ltac:(lia) Hb Hn).
  rewrite !Z.land_spec, !Z.shiftr_spec by lia.
  destruct (Z.ltb_spec n k) as [Hnk | Hnk].
  - destruct (Z.ltb_spec (n + s) k) as [Hns | Hns]; [reflexivity |].
    rewrite (small_bits_high (k - s) mlo n) by lia.
    rewrite !andb_false_r. reflexivity.
  - destruct (Z.ltb_spec (n + s) k) as [Hns | Hns]; [lia |].
    rewrite Z.shiftr_spec by lia.
    replace (n + s - k) with (n - k + s) by lia. reflexivity.
Qed.

Lemma land_shiftr_bytes4 (s m a b c d : Z) :
  0 <= s <= 8 -> 0 <= m < 2 ^ (8 - s) ->
  0 <= a < 2 ^ 8 -> 0 <= b < 2 ^ 8 -> 0 <= c < 2 ^ 8 -> 0 <= d < 2 ^ 8 ->
  Z.land (Z.shiftr (bytes4 a b c d) s) (bytes4 m m m m)
  = bytes4 (Z.land (Z.shiftr a s) m) (Z.land (Z.shiftr b s) m)
           (Z.land (Z.shiftr c s) m) (Z.land (Z.shiftr d s) m).
Proof.
  intros Hs Hm Ha Hb Hc Hd. unfold bytes4.
  rewrite land_shiftr_concat by lia.
  rewrite land_shiftr_concat by lia.
  rewrite land_shiftr_concat by lia.
  reflexivity.
Qed.

Lemma all_bytes_checked :
  forallb byte_steps_ok (map Z.of_nat (seq 0 256)) = true.
Proof. vm_compute. reflexivity. Qed.

Lemma byte_steps (a : Z) :
  0 <= a < 2 ^ 8 ->
  0 <= pairs8 a < 2 ^ 8
  /\ 0 <= quads8 (pairs8 a)
  /\ quads8 (pairs8 a) mod 16 <= 4
  /\ quads8 (pairs8 a) / 16 <= 4
  /\ quads8 (pairs8 a) mod 16 + quads8 (pairs8 a) / 16 = pop8 a.
Proof.
  intros Ha. change (2 ^ 8) with 256 in *.
  pose proof all_bytes_checked as Hall.
  rewrite forallb_forall in Hall.
  assert (Hin : In a (map Z.of_nat (seq 0 256))).
  { apply in_map_iff. exists (Z.to_nat a). split; [lia |].
    apply in_seq. lia. }
  specialize (Hall a Hin). unfold byte_steps_ok in Hall. cbn zeta in Hall.
  repeat (apply andb_true_iff in Hall; destruct Hall as [Hall ?]).
  repeat match goal with
         | H : (_ <=? _) = true |- _ => apply Z.leb_le in H
         | H : (_ <? _) = true |- _ => apply Z.ltb_lt in H
         | H : (_ =? _) = true |- _ => apply Z.eqb_eq in H
         end.
  repeat split; assumption.
Qed.

Lemma sum_bits_app (w : Z) (l1 l2 : list nat) :
  sum_bits w (l1 ++ l2) = sum_bits w l1 + sum_bits w l2.
Proof.
  unfold sum_bits. induction l1 as [| i l1 IH]; cbn [app map fold_right].
  - lia.
  - rewrite IH. lia.
Qed.

Lemma sum_bits_shift (w x : Z) (off : nat) (l : list nat) :
  (forall i, In i l ->
             Z.testbit w (Z.of_nat (off + i)) = Z.testbit x (Z.of_nat i)) ->
  sum_bits w (map (Nat.add off) l) = sum_bits x l.
Proof.
  unfold sum_bits. induction l as [| i l IH]; intros Hbits.
  - reflexivity.
  - cbn [map fold_right]. rewrite (Hbits i (or_introl eq_refl)).
    rewrite IH; [reflexivity |].
    intros j Hj. apply Hbits. right. exact Hj.
Qed.

Lemma testbit_bytes4 (a b c d n : Z) :
  0 <= a < 2 ^ 8 -> 0 <= b < 2 ^ 8 -> 0 <= c < 2 ^ 8 -> 0 <= n < 8 ->
  Z.testbit (bytes4 a b c d) n = Z.testbit a n
  /\ Z.testbit (bytes4 a b c d) (8 + n) = Z.testbit b n
  /\ Z.testbit (bytes4 a b c d) (16 + n) = Z.testbit c n
  /\ Z.testbit (bytes4 a b c d) (24 + n) = Z.testbit d n.
Proof.
  intros Ha Hb Hc Hn. unfold bytes4.
  repeat split.
  - rewrite concat_testbit by lia.
    destruct (Z.ltb_spec n 8); [reflexivity | lia].
  - rewrite concat_testbit by lia.
    destruct (Z.ltb_spec (8 + n) 8); [lia |].
    rewrite concat_testbit by lia.
    destruct (Z.ltb_spec (8 + n - 8) 8); [| lia].
    f_equal; lia.
  - rewrite concat_testbit by lia.
    destruct (Z.ltb_spec (16 + n) 8); [lia |].
    rewrite concat_testbit by lia.
    destruct (Z.ltb_spec (16 + n - 8) 8); [lia |].
    rewrite concat_testbit by lia.
    destruct (Z.ltb_spec (16 + n - 8 - 8) 8); [| lia].
    f_equal; lia.
  - rewrite concat_testbit by lia.
    destruct (Z.ltb_spec (24 + n) 8); [lia |].
    rewrite concat_testbit by lia.
    destruct (Z.ltb_spec (24 + n - 8) 8); [lia |].
    rewrite concat_testbit by lia.
    destruct (Z.ltb_spec (24 + n - 8 - 8) 8); [lia |].
    f_equal; lia.
Qed.

Lemma popcount32_bytes4 (a b c d : Z) :
  0 <= a < 2 ^ 8 -> 0 <= b < 2 ^ 8 -> 0 <= c < 2 ^ 8 ->
  popcount32 (bytes4 a b c d) = pop8 a + pop8 b + pop8 c + pop8 d.
Proof.
  intros Ha Hb Hc.
  change (popcount32 (bytes4 a b c d))
    with (sum_bits (bytes4 a b c d)
            (map (Nat.add 0) (seq 0 8) ++ map (Nat.add 8) (seq 0 8)
             ++ map (Nat.add 16) (seq 0 8) ++ map (Nat.add 24) (seq 0 8))).
  rewrite !sum_bits_app. unfold pop8.
  assert (Hbits : forall i, In i (seq 0 8) -> 0 <= Z.of_nat i < 8).
  { intros i Hi. apply in_seq in Hi. lia. }
  rewrite (sum_bits_shift _ a 0), (sum_bits_shift _ b 8),
    (sum_bits_shift _ c 16), (sum_bits_shift _ d 24).
  - lia.
  - intros i Hi. rewrite Nat2Z.inj_add.
    apply (testbit_bytes4 a b c d (Z.of_nat i) Ha Hb Hc (Hbits i Hi)).
  - intros i Hi. rewrite Nat2Z.inj_add.
    apply (testbit_bytes4 a b c d (Z.of_nat i) Ha Hb Hc (Hbits i Hi)).
  - intros i Hi. rewrite Nat2Z.inj_add.
    apply (testbit_bytes4 a b c d (Z.of_nat i) Ha Hb Hc (Hbits i Hi)).
  - intros i Hi. rewrite Nat2Z.inj_add.
    apply (testbit_bytes4 a b c d (Z.of_nat i) Ha Hb Hc (Hbits i Hi)).
Qed.

Lemma bytes4_range (a b c d : Z) :
  0 <= a < 2 ^ 8 -> 0 <= b < 2 ^ 8 -> 0 <= c < 2 ^ 8 -> 0 <= d < 2 ^ 8 ->
  0 <= bytes4 a b c d < 2 ^ 32.
Proof.
  intros Ha Hb Hc Hd. unfold bytes4.
  change (2 ^ 8) with 256 in *. change (2 ^ 32) with 4294967296. lia.
Qed.

Lemma bytes4_split (w : Z) :
  0 <= w < 2 ^ 32 ->
  exists a b c d : Z,
    w = bytes4 a b c d
    /\ 0 <= a < 2 ^ 8 /\ 0 <= b < 2 ^ 8 /\ 0 <= c < 2 ^ 8 /\ 0 <= d < 2 ^ 8.
Proof.
  intros Hw.
  exists (w mod 256), (w / 256 mod 256), (w / 65536 mod 256), (w / 16777216).
  unfold bytes4. change (2 ^ 8) with 256. change (2 ^ 32) with 4294967296 in Hw.
  Z.div_mod_to_equations. lia.
Qed.

Lemma land_bytes4 (m a b c d : Z) :
  0 <= m < 2 ^ 8 ->
  0 <= a < 2 ^ 8 -> 0 <= b < 2 ^ 8 -> 0 <= c < 2 ^ 8 -> 0 <= d < 2 ^ 8 ->
  Z.land (bytes4 a b c d) (bytes4 m m m m)
  = bytes4 (Z.land a m) (Z.land b m) (Z.land c m) (Z.land d m).
Proof.
  intros Hm Ha Hb Hc Hd.
  pose proof (land_shiftr_bytes4 0 m a b c d ltac:(lia) Hm Ha Hb Hc Hd) as Hl.
  rewrite !Z.shiftr_0_r in Hl. exact Hl.
Qed.

Lemma hw_step1 (a b c d : Z) :
  0 <= a < 2 ^ 8 -> 0 <= b < 2 ^ 8 -> 0 <= c < 2 ^ 8 -> 0 <= d < 2 ^ 8 ->
  to_uint (bytes4 a b c d
           - Z.land (Z.shiftr (bytes4 a b c d) 1) 0x55555555)
  = bytes4 (pairs8 a) (pairs8 b) (pairs8 c) (pairs8 d).
Proof.
  intros Ha Hb Hc Hd.
  change 0x55555555 with (bytes4 0x55 0x55 0x55 0x55).
  rewrite (land_shiftr_bytes4 1 0x55 a b c d)
    by (try assumption; change (2 ^ (8 - 1)) with 128; lia).
  replace (bytes4 a b c d
           - bytes4 (Z.land (Z.shiftr a 1) 0x55) (Z.land (Z.shiftr b 1) 0x55)
                    (Z.land (Z.shiftr c 1) 0x55) (Z.land (Z.shiftr d 1) 0x55))
    with (bytes4 (pairs8 a) (pairs8 b) (pairs8 c) (pairs8 d))
    by (unfold bytes4, pairs8; lia).
  apply to_uint_small. apply bytes4_range; apply byte_steps; assumption.
Qed.

Lemma quads8_range (a : Z) :
  0 <= a < 2 ^ 8 -> 0 <= quads8 (pairs8 a) < 2 ^ 8.
Proof.
  intros Ha. destruct (byte_steps a Ha) as (_ & H0 & Hlo & Hhi & _).
  change (2 ^ 8) with 256.
  pose proof (Z.div_mod (quads8 (pairs8 a)) 16 ltac:(lia)). lia.
Qed.

Lemma hw_step2 (a b c d : Z) :
  0 <= a < 2 ^ 8 -> 0 <= b < 2 ^ 8 -> 0 <= c < 2 ^ 8 -> 0 <= d < 2 ^ 8 ->
  0 <= quads8 a < 2 ^ 8 -> 0 <= quads8 b < 2 ^ 8 ->
  0 <= quads8 c < 2 ^ 8 -> 0 <= quads8 d < 2 ^ 8 ->
  to_uint (Z.land (bytes4 a b c d) 0x33333333
           + Z.land (Z.shiftr (bytes4 a b c d) 2) 0x33333333)
  = bytes4 (quads8 a) (quads8 b) (quads8 c) (quads8 d).
Proof.
  intros Ha Hb Hc Hd Hqa Hqb Hqc Hqd.
  change 0x33333333 with (bytes4 0x33 0x33 0x33 0x33).
  rewrite (land_bytes4 0x33 a b c d)
    by (try assumption; change (2 ^ 8) with 256; lia).
  rewrite (land_shiftr_bytes4 2 0x33 a b c d)
    by (try assumption; change (2 ^ (8 - 2)) with 64; lia).
  replace (bytes4 (Z.land a 0x33) (Z.land b 0x33) (Z.land c 0x33)
                  (Z.land d 0x33)
           + bytes4 (Z.land (Z.shiftr a 2) 0x33) (Z.land (Z.shiftr b 2) 0x33)
                    (Z.land (Z.shiftr c 2) 0x33) (Z.land (Z.shiftr d 2) 0x33))
    with (bytes4 (quads8 a) (quads8 b) (quads8 c) (quads8 d))
    by (unfold bytes4, quads8; lia).
  apply to_uint_small. apply bytes4_range; assumption.
Qed.

Lemma fold_nibbles (x t : Z) :
  small_nibbles x -> 0 <= t <= 4 ->
  0 <= x + x / 16 + 16 * t < 2 ^ 8
  /\ Z.land (x + x / 16 + 16 * t) 0x0F = x mod 16 + x / 16.
Proof.
  intros (H0 & Hlo & Hhi) Ht. change (2 ^ 8) with 256.
  pose proof (Z.div_mod x 16 ltac:(lia)) as Hdm.
  pose proof (Z.mod_pos_bound x 16 ltac:(lia)) as Hr.
  assert (0 <= x / 16) by (apply Z.div_pos; lia).
  split; [lia |].
  change 0x0F with (Z.ones 4). rewrite Z.land_ones by lia.
  change (2 ^ 4) with 16.
  replace (x + x / 16 + 16 * t)
    with (x mod 16 + x / 16 + (x / 16 + t) * 16) by lia.
  rewrite Z_mod_plus_full. apply Z.mod_small. lia.
Qed.

Lemma hw_step3 (a b c d : Z) :
  small_nibbles a -> small_nibbles b -> small_nibbles c -> small_nibbles d ->
  Z.land (to_uint (bytes4 a b c d + Z.shiftr (bytes4 a b c d) 4)) 0x0F0F0F0F
  = bytes4 (a mod 16 + a / 16) (b mod 16 + b / 16)
           (c mod 16 + c / 16) (d mod 16 + d / 16).
Proof.
  intros Ha Hb Hc Hd.
  assert (Hmb : 0 <= b mod 16 <= 4)
    by (destruct Hb as (_ & ? & _);
        pose proof (Z.mod_pos_bound b 16 ltac:(lia)); lia).
  assert (Hmc : 0 <= c mod 16 <= 4)
    by (destruct Hc as (_ & ? & _);
        pose proof (Z.mod_pos_bound c 16 ltac:(lia)); lia).
  assert (Hmd : 0 <= d mod 16 <= 4)
    by (destruct Hd as (_ & ? & _);
        pose proof (Z.mod_pos_bound d 16 ltac:(lia)); lia).
  destruct (fold_nibbles a (b mod 16) Ha Hmb) as [Hra Hla].
  destruct (fold_nibbles b (c mod 16) Hb Hmc) as [Hrb Hlb].
  destruct (fold_nibbles c (d mod 16) Hc Hmd) as [Hrc Hlc].
  destruct (fold_nibbles d 0 Hd ltac:(lia)) as [Hrd Hld].
  replace (bytes4 a b c d + Z.shiftr (bytes4 a b c d) 4)
    with (bytes4 (a + a / 16 + 16 * (b mod 16)) (b + b / 16 + 16 * (c mod 16))
                 (c + c / 16 + 16 * (d mod 16)) (d + d / 16 + 16 * 0)).
  2:{ rewrite Z.shiftr_div_pow2 by lia. unfold bytes4.
      change (2 ^ 8) with 256. change (2 ^ 4) with 16.
      destruct Ha as (? & _), Hb as (? & _), Hc as (? & _), Hd as (? & _).
      Z.div_mod_to_equations. lia. }
  rewrite to_uint_small by (apply bytes4_range; assumption).
  change 0x0F0F0F0F with (bytes4 0x0F 0x0F 0x0F 0x0F).
  rewrite land_bytes4 by (try assumption; change (2 ^ 8) with 256; lia).
  rewrite Hla, Hlb, Hlc, Hld. reflexivity.
Qed.

Lemma hw_step45 (pa pb pc pd : Z) :
  0 <= pa <= 8 -> 0 <= pb <= 8 -> 0 <= pc <= 8 -> 0 <= pd <= 8 ->
  Z.land
    (to_uint (to_uint (bytes4 pa pb pc pd + Z.shiftr (bytes4 pa pb pc pd) 8)
              + Z.shiftr
                  (to_uint (bytes4 pa pb pc pd
                            + Z.shiftr (bytes4 pa pb pc pd) 8)) 16))
    0x000000FF
  = pa + pb + pc + pd.
Proof.
  intros Ha Hb Hc Hd.
  replace (bytes4 pa pb pc pd + Z.shiftr (bytes4 pa pb pc pd) 8)
    with (bytes4 (pa + pb) (pb + pc) (pc + pd) pd).
  2:{ rewrite Z.shiftr_div_pow2 by lia. unfold bytes4.
      change (2 ^ 8) with 256. Z.div_mod_to_equations. lia. }
  rewrite (to_uint_small (bytes4 (pa + pb) (pb + pc) (pc + pd) pd))
    by (apply bytes4_range; change (2 ^ 8) with 256; lia).
  replace (bytes4 (pa + pb) (pb + pc) (pc + pd) pd
           + Z.shiftr (bytes4 (pa + pb) (pb + pc) (pc + pd) pd) 16)
    with (bytes4 (pa + pb + pc + pd) (pb + pc + pd) (pc + pd) pd).
  2:{ rewrite Z.shiftr_div_pow2 by lia. unfold bytes4.
      change (2 ^ 8) with 256. change (2 ^ 16) with 65536.
      Z.div_mod_to_equations. lia. }
  rewrite to_uint_small
    by (apply bytes4_range; change (2 ^ 8) with 256; lia).
  change 0x000000FF with (Z.ones 8). rewrite Z.land_ones by lia.
  unfold bytes4. rewrite Z.mul_comm, Z_mod_plus_full.
  apply Z.mod_small. change (2 ^ 8) with 256. lia.
Qed.

Lemma pop8_range (a : Z) : 0 <= a < 2 ^ 8 -> 0 <= pop8 a <= 8.
Proof.
  intros Ha. destruct (byte_steps a Ha) as (_ & H0 & Hlo & Hhi & Hp).
  rewrite <- Hp.
  pose proof (Z.mod_pos_bound (quads8 (pairs8 a)) 16 ltac:(lia)).
  pose proof (Z.div_pos (quads8 (pairs8 a)) 16 H0 ltac:(lia)). lia.
Qed.

(** [hweight32] on a word given by its bytes. *)
Lemma hweight32_bytes4 (a b c d : Z) :
  0 <= a < 2 ^ 8 -> 0 <= b < 2 ^ 8 -> 0 <= c < 2 ^ 8 -> 0 <= d < 2 ^ 8 ->
  hweight32 (bytes4 a b c d) = pop8 a + pop8 b + pop8 c + pop8 d.
Proof.
  intros Ha Hb Hc Hd.
  destruct (byte_steps a Ha) as (Ha1 & Ha0 & Halo & Hahi & Hpa).
  destruct (byte_steps b Hb) as (Hb1 & Hb0 & Hblo & Hbhi & Hpb).
  destruct (byte_steps c Hc) as (Hc1 & Hc0 & Hclo & Hchi & Hpc).
  destruct (byte_steps d Hd) as (Hd1 & Hd0 & Hdlo & Hdhi & Hpd).
  unfold hweight32. cbn zeta.
  rewrite (hw_step1 a b c d Ha Hb Hc Hd).
  rewrite (hw_step2 _ _ _ _ Ha1 Hb1 Hc1 Hd1
             (quads8_range a Ha) (quads8_range b Hb)
             (quads8_range c Hc) (quads8_range d Hd)).
  rewrite hw_step3 by (unfold small_nibbles; auto).
  rewrite Hpa, Hpb, Hpc, Hpd.
  apply hw_step45; apply pop8_range; assumption.
Qed.

End HweightFacts.

(** X10.  [hweight32] returns the number of set bits of its 32-bit
    argument, a number between 0 and 32. *)
Theorem hweight32_counts_set_bits :
  forall w : Z,
    0 <= w < 2 ^ 32 ->
    Bits.hweight32 w = Bits.popcount32 w
    /\ 0 <= Bits.hweight32 w <= 32.
Proof.
  intros w Hw.
  destruct (bytes4_split w Hw) as (a & b & c & d & -> & Ha & Hb & Hc & Hd).
  rewrite (hweight32_bytes4 a b c d Ha Hb Hc Hd).
  pose proof (pop8_range a Ha). pose proof (pop8_range b Hb).
  pose proof (pop8_range c Hc). pose proof (pop8_range d Hd).
  split; [| lia].
  symmetry. apply popcount32_bytes4; assumption.
Qed.

Lemma hweight32_witness :
  Bits.hweight32 0xF0F0F0F0 = Bits.popcount32 0xF0F0F0F0
  /\ 0 <= Bits.hweight32 0xF0F0F0F0 <= 32.
Proof.
  apply (hweight32_counts_set_bits 0xF0F0F0F0). lia.
Defined.

(** ** [IS_ERR] on any pointer *)

(** X11.  With pointers as wide as [long], [IS_ERR] answers 0 or 1, and 1
    exactly for the 4095 highest addresses: the null pointer and every
    address below [2 ^ bits - 4095] are not error pointers. *)
Theorem IS_ERR_marks_top_addresses :
  forall (bits : Z) (unlikely : Z -> Z) (p : Z),
    32 <= bits ->
    KernelCompat.is_branch_hint unlikely ->
    KernelCompat.is_pointer bits p ->
    (KernelCompat.IS_ERR bits unlikely p = 1
     <-> 2 ^ bits - KernelCompat.MAX_ERRNO <= p)
    /\ (KernelCompat.IS_ERR bits unlikely p = 0
        <-> p < 2 ^ bits - KernelCompat.MAX_ERRNO)
    /\ KernelCompat.IS_ERR bits unlikely NULL = 0.
Proof.
  intros bits unlikely p Hbits [H0 H1] Hp.
  pose proof (err_threshold bits Hbits) as Hth.
  pose proof (word_split bits Hbits) as Hw.
  pose proof (half_word_large bits Hbits) as Hh.
  unfold KernelCompat.IS_ERR, KernelCompat.IS_ERR_VALUE, NULL.
  rewrite Hth.
  unfold KernelCompat.is_pointer in Hp.
  unfold wrap_unsigned at 1 2.
  rewrite (Z.mod_small p) by exact Hp.
  unfold wrap_unsigned. rewrite Z.mod_0_l by lia.
  unfold KernelCompat.MAX_ERRNO in *.
  destruct (Z.geb_spec p (2 ^ bits - 4095)) as [Hge | Hlt];
    destruct (Z.geb_spec 0 (2 ^ bits - 4095)) as [Hge0 | Hlt0];
    try lia; rewrite ?H0, ?H1; repeat split; intros; try lia.
Qed.

Lemma IS_ERR_witness :
  (KernelCompat.IS_ERR 64 KernelCompat.builtin_unlikely (2 ^ 64 - 4095) = 1
   <-> 2 ^ 64 - KernelCompat.MAX_ERRNO <= 2 ^ 64 - 4095)
  /\ (KernelCompat.IS_ERR 64 KernelCompat.builtin_unlikely (2 ^ 64 - 4095) = 0
      <-> 2 ^ 64 - 4095 < 2 ^ 64 - KernelCompat.MAX_ERRNO)
  /\ KernelCompat.IS_ERR 64 KernelCompat.builtin_unlikely NULL = 0.
Proof.
  apply (IS_ERR_marks_top_addresses 64 KernelCompat.builtin_unlikely
           (2 ^ 64 - 4095)).
  - lia.
  - split; reflexivity.
  - unfold KernelCompat.is_pointer. lia.
Defined.
